(** * Olist dynamic BI dashboard: thresholds, risk bands and segments

    A shallow embedding of [premium_dashboard_parquet.py].  The script is a
    Streamlit page; what it computes (as opposed to what it draws) is

    - [load_data_from_parquet]: the delivered-orders frame with its derived
      [delivery_days] column,
    - [calculate_dynamic_thresholds]: the IQR fences of [freight_value] and
      [delivery_days],
    - [main]: the state filter, the two risk-band counters, the monthly
      lead-time table, the outlier table and the [Segment] column.

    Numbers.  A pandas float column is a list of [float := option Q]: [None]
    is NaN (a missing value), [Some q] a number.  Arithmetic is exact rational
    arithmetic; binary64 rounding is not modelled.  Timestamps are whole
    seconds since the epoch, [None] being NaT. *)

From Stdlib Require Import ZArith QArith Qround Lqa Lia.
From Stdlib Require Import Bool String Ascii List.
From Stdlib Require Import Sorted Permutation.
Import ListNotations.

Local Open Scope Q_scope.

(** ** The pandas primitives the script calls *)

Module Pandas.

Definition float : Type := option Q.
Definition NaN : float := None.
Definition num (q : Q) : float := Some q.

(** NaT is the missing timestamp. *)
Definition datetime : Type := option Z.
Definition NaT : datetime := None.

(** Arithmetic propagates NaN. *)
Definition lift2 (f : Q -> Q -> Q) (x y : float) : float :=
  match x, y with
  | Some a, Some b => Some (f a b)
  | _, _ => NaN
  end.

Definition add : float -> float -> float := lift2 Qplus.
Definition sub : float -> float -> float := lift2 Qminus.
Definition mul : float -> float -> float := lift2 Qmult.

(** Every comparison with NaN is [False]. *)
Definition Qlt_bool (a b : Q) : bool := negb (Qle_bool b a).

Definition gt (x y : float) : bool :=
  match x, y with
  | Some a, Some b => Qlt_bool b a
  | _, _ => false
  end.

Definition le (x y : float) : bool :=
  match x, y with
  | Some a, Some b => Qle_bool a b
  | _, _ => false
  end.

(** Equality of floats as numbers: two NaN outputs are the same output. *)
Definition feq (x y : float) : Prop :=
  match x, y with
  | Some a, Some b => a == b
  | None, None => True
  | _, _ => False
  end.

(** [s > y], [s <= y] for a column [s] and a scalar [y]; [m1 & m2], [m1 | m2]
    for two masks over the same index. *)
Definition series_gt (s : list float) (y : float) : list bool :=
  map (fun x => gt x y) s.
Definition series_le (s : list float) (y : float) : list bool :=
  map (fun x => le x y) s.

Fixpoint zip_with {A B C} (f : A -> B -> C) (l : list A) (m : list B) : list C :=
  match l, m with
  | a :: l', b :: m' => f a b :: zip_with f l' m'
  | _, _ => []
  end.

Definition mask_and : list bool -> list bool -> list bool := zip_with andb.
Definition mask_or : list bool -> list bool -> list bool := zip_with orb.

(** [df[mask]]: the rows whose mask entry is [True], in frame order. *)
Fixpoint getitem_mask {A} (rows : list A) (mask : list bool) : list A :=
  match rows, mask with
  | r :: rows', m :: mask' =>
      if m then r :: getitem_mask rows' mask' else getitem_mask rows' mask'
  | _, _ => []
  end.

(** [col.loc[mask] = v]: overwrite the masked entries of a column. *)
Definition loc_assign {A} (mask : list bool) (v : A) (col : list A) : list A :=
  zip_with (fun (m : bool) c => if m then v else c) mask col.

(** The values of a column that are not missing. *)
Fixpoint dropna_values {A} (s : list (option A)) : list A :=
  match s with
  | [] => []
  | Some a :: s' => a :: dropna_values s'
  | None :: s' => dropna_values s'
  end.

(** Sorting (numpy sorts, or partitions, before it picks order statistics;
    [groupby] sorts its keys). *)
Fixpoint insert_sorted {A} (leb : A -> A -> bool) (x : A) (l : list A) : list A :=
  match l with
  | [] => [x]
  | y :: l' => if leb x y then x :: l else y :: insert_sorted leb x l'
  end.

Fixpoint sort_values {A} (leb : A -> A -> bool) (l : list A) : list A :=
  match l with
  | [] => []
  | x :: l' => insert_sorted leb x (sort_values leb l')
  end.

(** numpy's [_lerp]: [a + (b - a) * t]. *)
Definition lerp (a b t : Q) : Q := a + (b - a) * t.

(** [Series.quantile(q)] with the default [interpolation='linear']: missing
    values are masked out; on nothing left the result is NaN; otherwise, with
    [n] values sorted ascending, the virtual index is [(n - 1) * q], and the
    result interpolates between the order statistics at its floor and at the
    next index (clipped to the last one). *)
Definition percentile_linear (values : list Q) (q : Q) : float :=
  match values with
  | [] => NaN
  | v0 :: _ =>
      let n := length values in
      let virtual_index := (inject_Z (Z.of_nat n) - 1) * q in
      let previous := Z.to_nat (Qfloor virtual_index) in
      let next := Nat.min (S previous) (n - 1) in
      let gamma := virtual_index - inject_Z (Qfloor virtual_index) in
      Some (lerp (nth previous values v0) (nth next values v0) gamma)
  end.

Definition quantile (s : list float) (q : Q) : float :=
  percentile_linear (sort_values Qle_bool (dropna_values s)) q.

(** [Series.mean()]: the mean of the values that are not missing, NaN when
    there is none. *)
Definition mean (s : list float) : float :=
  match dropna_values s with
  | [] => NaN
  | v :: vs =>
      Some (fold_left Qplus vs v / inject_Z (Z.of_nat (length (v :: vs))))
  end.

(** [Timedelta.days]: whole days, rounded towards minus infinity. *)
Definition dt_days (delta : option Z) : float :=
  option_map (fun s => inject_Z (s / 86400)) delta.

(** [Timedelta.total_seconds()]. *)
Definition dt_total_seconds (delta : option Z) : float :=
  option_map inject_Z delta.

(** Difference of two timestamp columns' entries; NaT propagates.  Seconds
    are unbounded here: the overflow of the code's 64-bit nanoseconds, beyond
    about 292 years, is not modelled. *)
Definition datetime_sub (x y : datetime) : option Z :=
  match x, y with
  | Some a, Some b => Some (a - b)%Z
  | _, _ => None
  end.

Definition div (x y : float) : float := lift2 Qdiv x y.

End Pandas.

Import Pandas.

(** ** The frame *)

(** One row of the consolidated orders file.  [delivery_days] is the column
    the loader adds. *)
Record Order := {
  order_id : string;
  order_purchase_timestamp : datetime;
  order_approved_at : datetime;
  order_delivered_carrier_date : datetime;
  order_delivered_customer_date : datetime;
  price : float;
  freight_value : float;
  review_score : float;
  product_category_name : option string;
  customer_state : option string;
  delivery_days : float
}.

(** A frame is its rows plus the one fact about its columns the script tests:
    whether ['customer_state'] is among them.  The other columns of the
    consolidated schema are taken as present. *)
Record DataFrame := {
  has_customer_state : bool;
  rows : list Order
}.

(** [pd.DataFrame()]: no rows, and no columns either; the script only tests
    it with [df.empty]. *)
Definition empty_frame : DataFrame :=
  {| has_customer_state := false; rows := [] |}.

(** [df.empty]. *)
Definition empty (df : DataFrame) : bool :=
  match rows df with [] => true | _ => false end.

Definition with_rows (df : DataFrame) (rs : list Order) : DataFrame :=
  {| has_customer_state := has_customer_state df; rows := rs |}.

(** [df[name]] for the columns used below. *)
Definition column {A} (f : Order -> A) (df : DataFrame) : list A :=
  map f (rows df).

(** ** load_data_from_parquet *)

Definition set_delivery_days (d : float) (o : Order) : Order :=
  {| order_id := order_id o;
     order_purchase_timestamp := order_purchase_timestamp o;
     order_approved_at := order_approved_at o;
     order_delivered_carrier_date := order_delivered_carrier_date o;
     order_delivered_customer_date := order_delivered_customer_date o;
     price := price o;
     freight_value := freight_value o;
     review_score := review_score o;
     product_category_name := product_category_name o;
     customer_state := customer_state o;
     delivery_days := d |}.

Definition notna {A} (x : option A) : bool :=
  match x with Some _ => true | None => false end.

(** [parquet] is what [pd.read_parquet] yields: [None] when it raises (the
    [except] branch returns the empty frame).  The four date columns are
    already timestamps here, so [pd.to_datetime] has nothing left to do. *)
Definition load_data_from_parquet (parquet : option DataFrame) : DataFrame :=
  match parquet with
  | None => empty_frame
  | Some df =>
      (* df.dropna(subset=['order_delivered_customer_date']) *)
      let df := with_rows df
        (filter (fun o => notna (order_delivered_customer_date o)) (rows df)) in
      (* df['delivery_days'] = (delivered - purchase).dt.days *)
      with_rows df
        (map (fun o =>
                set_delivery_days
                  (dt_days (datetime_sub (order_delivered_customer_date o)
                                         (order_purchase_timestamp o))) o)
             (rows df))
  end.

(** ** calculate_dynamic_thresholds *)

(** [(f_limit, d_limit, f_warning, d_warning)], in the order the script
    returns them. *)
Definition Thresholds : Type := (float * float * float * float)%type.

Definition calculate_dynamic_thresholds (df : DataFrame) : Thresholds :=
  (* IQR Method for Freight *)
  let f_q1 := quantile (column freight_value df) 0.25 in
  let f_q3 := quantile (column freight_value df) 0.75 in
  let f_limit := add f_q3 (mul (num 1.5) (sub f_q3 f_q1)) in
  let f_warning := mul f_limit (num 0.8) in
  (* IQR Method for Delivery Days *)
  let d_q1 := quantile (column delivery_days df) 0.25 in
  let d_q3 := quantile (column delivery_days df) 0.75 in
  let d_limit := add d_q3 (mul (num 1.5) (sub d_q3 d_q1)) in
  let d_warning := mul d_limit (num 0.8) in
  (f_limit, d_limit, f_warning, d_warning).


(** ** main: the sidebar filter (lines 113-123) *)

Definition option_string_eqb (x y : option string) : bool :=
  match x, y with
  | Some a, Some b => String.eqb a b
  | None, None => true
  | _, _ => false
  end.

(** [col.isin(values)]; a missing entry matches a missing value. *)
Definition isin (col : list (option string)) (values : list (option string))
  : list bool :=
  map (fun x => existsb (option_string_eqb x) values) col.

(** [selected_state] is what the multiselect widget returns. *)
Definition select_plot_df (df : DataFrame) (selected_state : list (option string))
  : DataFrame :=
  if has_customer_state df then
    match selected_state with
    | _ :: _ =>
        with_rows df
          (getitem_mask (rows df) (isin (column customer_state df) selected_state))
    | [] => df
    end
  else df.

(** ** main: the risk-band counters (lines 139-144) *)

Definition at_risk_cnt (plot_df : DataFrame) (th : Thresholds) : nat :=
  let '(f_limit, d_limit, f_warning, d_warning) := th in
  let dd := column delivery_days plot_df in
  let fv := column freight_value plot_df in
  length
    (getitem_mask (rows plot_df)
       (mask_or
          (mask_and (series_gt dd d_warning) (series_le dd d_limit))
          (mask_and (series_gt fv f_warning) (series_le fv f_limit)))).

Definition worst_case_cnt (plot_df : DataFrame) (th : Thresholds) : nat :=
  let '(f_limit, d_limit, f_warning, d_warning) := th in
  let dd := column delivery_days plot_df in
  let fv := column freight_value plot_df in
  length
    (getitem_mask (rows plot_df)
       (mask_and (series_gt dd d_limit) (series_gt fv f_limit))).

(** ** main: the monthly lead-time table (lines 174-183) *)

(** [strftime('%Y-%m')] of a timestamp in seconds: the civil year and month
    of its day number (proleptic Gregorian calendar), zero padded.  The four
    year digits are those of the years 1000 to 9999; what the platform prints
    for earlier years is not modelled. *)
Definition civil_year_month (days : Z) : Z * Z :=
  let z := (days + 719468)%Z in
  let era := (z / 146097)%Z in
  let doe := (z - era * 146097)%Z in
  let yoe := ((doe - doe / 1460 + doe / 36524 - doe / 146096) / 365)%Z in
  let doy := (doe - (365 * yoe + yoe / 4 - yoe / 100))%Z in
  let mp := ((5 * doy + 2) / 153)%Z in
  let m := (if mp <? 10 then mp + 3 else mp - 9)%Z in
  let y := (yoe + era * 400 + (if m <=? 2 then 1 else 0))%Z in
  (y, m).

Definition digit (d : Z) : ascii := ascii_of_nat (48 + Z.to_nat d).

Fixpoint zero_padded (width : nat) (n : Z) (acc : string) : string :=
  match width with
  | O => acc
  | S w => zero_padded w (n / 10)%Z (String (digit (n mod 10)) acc)
  end.

Definition strftime_Ym (t : Z) : string :=
  let '(y, m) := civil_year_month (t / 86400)%Z in
  (zero_padded 4 y "" ++ "-" ++ zero_padded 2 m "")%string.

(** A row of [op_df]: the order and the four columns tab 2 adds. *)
Record OpRow := {
  op_order : Order;
  p_to_a : float;
  a_to_c : float;
  c_to_d : float;
  month : option string
}.

(** [op_df]: rows with the three later timestamps present, with the stage
    durations in fractional days and the purchase month. *)
Definition op_df (df : DataFrame) : list OpRow :=
  map (fun o =>
         {| op_order := o;
            p_to_a := div (dt_total_seconds
                             (datetime_sub (order_approved_at o)
                                           (order_purchase_timestamp o)))
                          (num 86400);
            a_to_c := div (dt_total_seconds
                             (datetime_sub (order_delivered_carrier_date o)
                                           (order_approved_at o)))
                          (num 86400);
            c_to_d := div (dt_total_seconds
                             (datetime_sub (order_delivered_customer_date o)
                                           (order_delivered_carrier_date o)))
                          (num 86400);
            month := option_map strftime_Ym (order_purchase_timestamp o) |})
      (filter (fun o => notna (order_approved_at o)
                        && notna (order_delivered_carrier_date o)
                        && notna (order_delivered_customer_date o))
              (rows df)).

(** [groupby('month')[[...]].mean().reset_index()]: one row per month that
    occurs (a missing key forms no group), months ascending. *)
Definition groupby_month_mean (op : list OpRow)
  : list (string * (float * float * float)) :=
  let keys :=
    sort_values String.leb (nodup string_dec (dropna_values (map month op))) in
  map (fun k =>
         let g := filter (fun r => option_string_eqb (month r) (Some k)) op in
         (k, (mean (map p_to_a g), mean (map a_to_c g), mean (map c_to_d g))))
      keys.

(** The table tab 2 plots, as a function of the frame it is computed from. *)
Definition df_perf (df : DataFrame) : list (string * (float * float * float)) :=
  groupby_month_mean (op_df df).

(** ** main: the outlier table (line 223) *)

Definition outliers_df (plot_df : DataFrame) (th : Thresholds) : list Order :=
  let '(f_limit, d_limit, f_warning, d_warning) := th in
  getitem_mask (rows plot_df)
    (mask_or (series_gt (column delivery_days plot_df) d_limit)
             (series_gt (column freight_value plot_df) f_limit)).

(** ** main: the Segment column (lines 250-255) *)

Inductive Segment := Normal | At_Risk | High_Freight | Delayed | Worst_Case.

Definition assign_segments (plot_df : DataFrame) (th : Thresholds) : list Segment :=
  let '(f_limit, d_limit, f_warning, d_warning) := th in
  let dd := column delivery_days plot_df in
  let fv := column freight_value plot_df in
  let seg := map (fun _ => Normal) (rows plot_df) in
  (* Hierarchical classification - later rules overwrite earlier ones *)
  let seg := loc_assign
               (mask_or (series_gt dd d_warning) (series_gt fv f_warning))
               At_Risk seg in
  let seg := loc_assign (series_gt fv f_limit) High_Freight seg in
  let seg := loc_assign (series_gt dd d_limit) Delayed seg in
  let seg := loc_assign
               (mask_and (series_gt dd d_limit) (series_gt fv f_limit))
               Worst_Case seg in
  seg.

(** ** main *)

(** What one run of the page shows, as far as the computations above go. *)
Record Dashboard := {
  shown_thresholds : Thresholds;
  shown_at_risk_cnt : nat;
  shown_worst_case_cnt : nat;
  shown_total_orders : nat;
  shown_df_perf : list (string * (float * float * float));
  shown_outliers_df : list Order;
  shown_Segment : list Segment
}.

(** [None] is the early [return] after the "no data" warning.  The charts
    and texts left out above (the monthly revenue of line 156, the detail
    text of lines 234-241) and the exceptions they can raise are not
    modelled. *)
Definition main (parquet : option DataFrame) (selected_state : list (option string))
  : option Dashboard :=
  let df := load_data_from_parquet parquet in
  if empty df then None
  else
    let th := calculate_dynamic_thresholds df in
    let plot_df := select_plot_df df selected_state in
    Some {| shown_thresholds := th;
            shown_at_risk_cnt := at_risk_cnt plot_df th;
            shown_worst_case_cnt := worst_case_cnt plot_df th;
            shown_total_orders := length (rows plot_df);
            shown_df_perf := df_perf df;
            shown_outliers_df := outliers_df plot_df th;
            shown_Segment := assign_segments plot_df th |}.

(** * The specification's vocabulary *)

Definition f_limit (th : Thresholds) : float := fst (fst (fst th)).
Definition d_limit (th : Thresholds) : float := snd (fst (fst th)).
Definition f_warning (th : Thresholds) : float := snd (fst th).
Definition d_warning (th : Thresholds) : float := snd th.

(** The frame with the given rows and a state column. *)
Definition frame_of (rs : list Order) : DataFrame :=
  {| has_customer_state := true; rows := rs |}.

(** [x] lies in the half-open interval [(lo, hi]]. *)
Definition in_half_open (lo hi x : float) : Prop :=
  exists a b v, lo = Some a /\ hi = Some b /\ x = Some v /\ a < v /\ v <= b.

(** [x] exceeds [y]. *)
Definition exceeds (x y : float) : Prop :=
  exists v b, x = Some v /\ y = Some b /\ b < v.

(** The two risk bands of the specification's [countByRiskBand]. *)
Definition at_risk_band (th : Thresholds) (o : Order) : Prop :=
  in_half_open (d_warning th) (d_limit th) (delivery_days o)
  \/ in_half_open (f_warning th) (f_limit th) (freight_value o).

Definition worst_case_band (th : Thresholds) (o : Order) : Prop :=
  exceeds (delivery_days o) (d_limit th) /\ exceeds (freight_value o) (f_limit th).

(** Their decision procedures. *)
Definition at_risk_bandb (th : Thresholds) (o : Order) : bool :=
  (gt (delivery_days o) (d_warning th) && le (delivery_days o) (d_limit th))
  || (gt (freight_value o) (f_warning th) && le (freight_value o) (f_limit th)).

Definition worst_case_bandb (th : Thresholds) (o : Order) : bool :=
  gt (delivery_days o) (d_limit th) && gt (freight_value o) (f_limit th).

(** The specification's [classify]: the cascade of overrides on one record. *)
Definition classify (o : Order) (th : Thresholds) : Segment :=
  let s := Normal in
  let s := if gt (delivery_days o) (d_warning th)
              || gt (freight_value o) (f_warning th) then At_Risk else s in
  let s := if gt (freight_value o) (f_limit th) then High_Freight else s in
  let s := if gt (delivery_days o) (d_limit th) then Delayed else s in
  let s := if gt (delivery_days o) (d_limit th)
              && gt (freight_value o) (f_limit th) then Worst_Case else s in
  s.

(** The outlier table's membership test, on one record. *)
Definition is_outlier (o : Order) (th : Thresholds) : bool :=
  gt (delivery_days o) (d_limit th) || gt (freight_value o) (f_limit th).

Definition outlier_segment (s : Segment) : bool :=
  match s with
  | High_Freight | Delayed | Worst_Case => true
  | Normal | At_Risk => false
  end.

(** The four overwrites of lines 252-255 as data, to run them in another
    order. *)
Inductive Rule := rule_at_risk | rule_high_freight | rule_delayed | rule_worst_case.

Definition rule_mask (r : Rule) (plot_df : DataFrame) (th : Thresholds) : list bool :=
  let dd := column delivery_days plot_df in
  let fv := column freight_value plot_df in
  match r with
  | rule_at_risk =>
      mask_or (series_gt dd (d_warning th)) (series_gt fv (f_warning th))
  | rule_high_freight => series_gt fv (f_limit th)
  | rule_delayed => series_gt dd (d_limit th)
  | rule_worst_case =>
      mask_and (series_gt dd (d_limit th)) (series_gt fv (f_limit th))
  end.

Definition rule_label (r : Rule) : Segment :=
  match r with
  | rule_at_risk => At_Risk
  | rule_high_freight => High_Freight
  | rule_delayed => Delayed
  | rule_worst_case => Worst_Case
  end.

Definition run_rules (rules : list Rule) (plot_df : DataFrame) (th : Thresholds)
  : list Segment :=
  fold_left (fun seg r => loc_assign (rule_mask r plot_df th) (rule_label r) seg)
            rules (map (fun _ => Normal) (rows plot_df)).

(** One rule on one record, and a list of rules run on one record. *)
Definition rule_applies (r : Rule) (o : Order) (th : Thresholds) : bool :=
  match r with
  | rule_at_risk =>
      gt (delivery_days o) (d_warning th) || gt (freight_value o) (f_warning th)
  | rule_high_freight => gt (freight_value o) (f_limit th)
  | rule_delayed => gt (delivery_days o) (d_limit th)
  | rule_worst_case =>
      gt (delivery_days o) (d_limit th) && gt (freight_value o) (f_limit th)
  end.

Definition run_rules_on (rules : list Rule) (o : Order) (th : Thresholds)
  (start : Segment) : Segment :=
  fold_left (fun s r => if rule_applies r o th then rule_label r else s)
            rules start.

(** The two indices and the weight [percentile_linear] uses on [n] values. *)
Definition previous_index (n : nat) (q : Q) : nat :=
  Z.to_nat (Qfloor ((inject_Z (Z.of_nat n) - 1) * q)).

Definition next_index (n : nat) (q : Q) : nat :=
  Nat.min (S (previous_index n q)) (n - 1).

Definition weight (n : nat) (q : Q) : Q :=
  (inject_Z (Z.of_nat n) - 1) * q
  - inject_Z (Qfloor ((inject_Z (Z.of_nat n) - 1) * q)).

(** The two metrics [calculate_dynamic_thresholds] fences. *)
Inductive Field := Freight | Delivery.

Definition field_column (fld : Field) (df : DataFrame) : list float :=
  match fld with
  | Freight => column freight_value df
  | Delivery => column delivery_days df
  end.

Definition field_limit (fld : Field) (th : Thresholds) : float :=
  match fld with Freight => f_limit th | Delivery => d_limit th end.

Definition field_warning (fld : Field) (th : Thresholds) : float :=
  match fld with Freight => f_warning th | Delivery => d_warning th end.

(** The label a record gets when one of its two fields is missing: the
    cascade restricted to the field that is there. *)
Definition label_by_delivery (dd : float) (th : Thresholds) : Segment :=
  if gt dd (d_limit th) then Delayed
  else if gt dd (d_warning th) then At_Risk else Normal.

Definition label_by_freight (fv : float) (th : Thresholds) : Segment :=
  if gt fv (f_limit th) then High_Freight
  else if gt fv (f_warning th) then At_Risk else Normal.

(** A column has a value that is not missing. *)
Definition has_value (s : list float) : Prop := dropna_values s <> [].

(** Every value of a column that is not missing equals [v]. *)
Definition single_valued (s : list float) (v : Q) : Prop :=
  has_value s /\ forall x, In x (dropna_values s) -> x == v.

(** The fence and its warning level for one column, as
    [calculate_dynamic_thresholds] computes them. *)
Definition fence (s : list float) : float :=
  add (quantile s 0.75) (mul (num 1.5) (sub (quantile s 0.75) (quantile s 0.25))).

Definition fence_warning (s : list float) : float := mul (fence s) (num 0.8).

(** What the specification says of a limit [l] and a warning [w] derived
    from a column [s]: the warning is 0.8 times the limit and the limit is at
    least the third quartile; the warning is at most the limit exactly when
    the limit is not negative, which holds when no value of the column is
    negative. *)
Definition fence_facts (s : list float) (l w : float) : Prop :=
  exists q3 lv wv,
    quantile s 0.75 = Some q3 /\ l = Some lv /\ w = Some wv
    /\ wv == 0.8 * lv
    /\ q3 <= lv
    /\ (wv <= lv <-> 0 <= lv)
    /\ ((forall x, In x (dropna_values s) -> 0 <= x) -> wv <= lv).

(** The fence of a column whose values all equal [v]. *)
Definition degenerate_fence (s : list float) (v : Q) (l w : float) : Prop :=
  exists q1 q3 lv wv,
    quantile s 0.25 = Some q1 /\ quantile s 0.75 = Some q3
    /\ l = Some lv /\ w = Some wv
    /\ q1 == v /\ q3 == v /\ q3 - q1 == 0
    /\ lv == q3
    /\ wv == 0.8 * v
    /\ (forall x, gt (Some x) l = true <-> v < x).

(** * The rest of the page *)

(** [Series.unique()]: the distinct entries, in order of first appearance. *)
Fixpoint unique {A} (eqb : A -> A -> bool) (s : list A) : list A :=
  match s with
  | [] => []
  | x :: s' => x :: filter (fun y => negb (eqb x y)) (unique eqb s')
  end.

(** [Series.sum()]: the sum of the values that are not missing, 0 when there
    is none. *)
Definition series_sum (s : list float) : Q :=
  fold_left Qplus (dropna_values s) 0.

(** ** main: the multiselect's options and default (lines 114-115) *)

Definition state_options (df : DataFrame) : list (option string) :=
  unique option_string_eqb (column customer_state df).

Definition default_options (df : DataFrame) : list (option string) :=
  match state_options df with
  | [] => []
  | _ :: _ => firstn 5 (state_options df)
  end.

(** ** main: the order count (line 146) *)

Definition total_orders (plot_df : DataFrame) : nat := length (rows plot_df).

(** ** main: the ten best categories (line 163)

    The branch taken when the frame has a ['product_category_name']
    column. *)

(** [groupby('product_category_name')['price'].sum()]: one entry per
    category that occurs, categories ascending. *)
Definition groupby_category_sum (plot_df : DataFrame) : list (string * Q) :=
  let keys :=
    sort_values String.leb
      (nodup string_dec (dropna_values (column product_category_name plot_df))) in
  map (fun k =>
         (k, series_sum
               (map price
                  (filter (fun o => option_string_eqb (product_category_name o)
                                                       (Some k))
                          (rows plot_df)))))
      keys.

(** [Series.nlargest(n)]: the [n] largest entries, largest first, equal
    entries in their order of appearance. *)
Definition nlargest {K} (n : nat) (s : list (K * Q)) : list (K * Q) :=
  firstn n (sort_values (fun a b => Qle_bool (snd b) (snd a)) s).

Definition top_cats (plot_df : DataFrame) : list (string * Q) :=
  nlargest 10 (groupby_category_sum plot_df).

(** ** main: the outlier detail (lines 225-231) *)

(** The select box's options. *)
Definition outlier_options (outliers : list Order) : list string :=
  unique String.eqb (map order_id outliers).

(** [outliers_df[outliers_df['order_id'] == selected_id].iloc[0]]; [None] is
    the [IndexError] of [iloc[0]] on a selection without rows. *)
Definition detail (outliers : list Order) (selected_id : string) : option Order :=
  hd_error (filter (fun o => String.eqb (order_id o) selected_id) outliers).

(** ** main: the mean review score by segment (lines 257-260) *)

Definition segment_name (s : Segment) : string :=
  match s with
  | Normal => "Normal"
  | At_Risk => "At-Risk"
  | High_Freight => "High Freight"
  | Delayed => "Delayed"
  | Worst_Case => "Worst Case"
  end.

Definition sort_idx (s : Segment) : nat :=
  match s with
  | Normal => 0
  | At_Risk => 1
  | High_Freight => 2
  | Delayed => 3
  | Worst_Case => 4
  end.

Definition Segment_eqb (a b : Segment) : bool := Nat.eqb (sort_idx a) (sort_idx b).

(** [groupby('Segment')['review_score'].mean()], its groups in the order of
    their names, then [sort_values('sort_idx')]. *)
Definition avg_scores (plot_df : DataFrame) (th : Thresholds)
  : list (Segment * float) :=
  let seg := assign_segments plot_df th in
  let keys :=
    sort_values (fun a b => String.leb (segment_name a) (segment_name b))
                (unique Segment_eqb seg) in
  let grouped :=
    map (fun k =>
           (k, mean (getitem_mask (column review_score plot_df)
                                  (map (Segment_eqb k) seg))))
        keys in
  sort_values (fun a b => Nat.leb (sort_idx (fst a)) (sort_idx (fst b))) grouped.

(** * More of the specification's vocabulary *)

(** The cascade read as priorities: the most severe condition that holds
    names the segment. *)
Definition segment_by_priority (o : Order) (th : Thresholds) : Segment :=
  if gt (delivery_days o) (d_limit th) && gt (freight_value o) (f_limit th)
  then Worst_Case
  else if gt (delivery_days o) (d_limit th) then Delayed
  else if gt (freight_value o) (f_limit th) then High_Freight
  else if gt (delivery_days o) (d_warning th)
          || gt (freight_value o) (f_warning th) then At_Risk
  else Normal.

(** Two threshold sets that are the same numbers. *)
Definition thresholds_eq (th th' : Thresholds) : Prop :=
  feq (f_limit th) (f_limit th') /\ feq (d_limit th) (d_limit th')
  /\ feq (f_warning th) (f_warning th') /\ feq (d_warning th) (d_warning th').

(** The timestamps of an order, where present, are in their natural
    order. *)
Definition timestamps_ordered (o : Order) : Prop :=
  forall p a c d,
    order_purchase_timestamp o = Some p -> order_approved_at o = Some a ->
    order_delivered_carrier_date o = Some c ->
    order_delivered_customer_date o = Some d ->
    (p <= a)%Z /\ (a <= c)%Z /\ (c <= d)%Z.

(** An order enters the lead-time table: its four timestamps are there. *)
Definition in_lead_time_table (o : Order) (p : Z) : Prop :=
  order_purchase_timestamp o = Some p
  /\ order_approved_at o <> NaT
  /\ order_delivered_carrier_date o <> NaT
  /\ order_delivered_customer_date o <> NaT.

Definition count_le (l : list Q) (v : Q) : nat :=
  length (filter (fun x => Qle_bool x v) l).

(** * Sample frames *)

(** A row of the parquet file, before the loader adds [delivery_days]:
    approval one hour and carrier hand-over one day after the purchase. *)
Definition file_row (id state : string) (purchase delivered : Z) (fv : Q) : Order :=
  {| order_id := id;
     order_purchase_timestamp := Some purchase;
     order_approved_at := Some (purchase + 3600)%Z;
     order_delivered_carrier_date := Some (purchase + 86400)%Z;
     order_delivered_customer_date := Some delivered;
     price := Some 100;
     freight_value := Some fv;
     review_score := Some 5;
     product_category_name := Some "toys"%string;
     customer_state := Some state;
     delivery_days := NaN |}.

(** A loaded row known only by its two metrics. *)
Definition metrics_row (fv dd : float) : Order :=
  {| order_id := "m"%string;
     order_purchase_timestamp := NaT;
     order_approved_at := NaT;
     order_delivered_carrier_date := NaT;
     order_delivered_customer_date := Some 0%Z;
     price := NaN;
     freight_value := fv;
     review_score := NaN;
     product_category_name := None;
     customer_state := None;
     delivery_days := dd |}.

(** Two orders from SP bought in February 2018 and two from RJ bought in
    January 2018; freight 10, 12, 100, 14 and delivery after 2, 3, 3, 50
    days. *)
Definition olist_sample : DataFrame :=
  frame_of
    [ file_row "a" "SP" 1517443200 (1517443200 + 2 * 86400) 10;
      file_row "b" "SP" 1517529600 (1517529600 + 3 * 86400) 12;
      file_row "c" "RJ" 1514764800 (1514764800 + 3 * 86400) 100;
      file_row "d" "RJ" 1514851200 (1514851200 + 50 * 86400) 14 ].

(** One order whose delivery is stamped a second before its purchase. *)
Definition clock_skew_sample : DataFrame :=
  frame_of [ file_row "e" "SP" 1517443200 1517443199 10 ].

(** A file whose only order has not been delivered: the loader drops it and
    leaves a frame with columns and no rows. *)
Definition undelivered_sample : DataFrame :=
  frame_of
    [ {| order_id := "u"%string;
         order_purchase_timestamp := Some 1517443200%Z;
         order_approved_at := Some 1517446800%Z;
         order_delivered_carrier_date := NaT;
         order_delivered_customer_date := NaT;
         price := Some 100;
         freight_value := Some 10;
         review_score := NaN;
         product_category_name := Some "toys"%string;
         customer_state := Some "SP"%string;
         delivery_days := NaN |} ].

(** The four records of the specification's example, by their metrics. *)
Definition spec_sample : DataFrame :=
  frame_of
    [ metrics_row (num 10) (num 2); metrics_row (num 12) (num 3);
      metrics_row (num 100) (num 3); metrics_row (num 14) (num 50) ].

(** Two orders from SP with the same freight, 10, both delivered two days
    after their purchase. *)
Definition even_sample : DataFrame :=
  frame_of
    [ file_row "f" "SP" 1517443200 (1517443200 + 2 * 86400) 10;
      file_row "g" "SP" 1517529600 (1517529600 + 2 * 86400) 10 ].

(** Fences at 10 and warnings at 8 for both metrics. *)
Definition ten_eight : Thresholds := (num 10, num 10, num 8, num 8).

(** * The embedding on the sample frames *)

Example quantile_five :
  feq (quantile [num 5; num 1; NaN; num 3; num 2; num 4] 0.25) (num 2)
  /\ feq (quantile [num 5; NaN; num 1] 0.75) (num 4)
  /\ quantile [NaN; NaN] 0.75 = NaN.
Proof. repeat split. Qed.

Example spec_sample_thresholds :
  let th := calculate_dynamic_thresholds spec_sample in
  feq (f_limit th) (num 71.5) /\ feq (f_warning th) (num 57.2)
  /\ feq (d_limit th) (num 32.75) /\ feq (d_warning th) (num 26.2).
Proof. repeat split. Qed.

Example strftime_Ym_samples :
  map strftime_Ym [0; -1; 951782400; 951868800; 1514764800; 1517443199]%Z
  = ["1970-01"; "1969-12"; "2000-02"; "2000-03"; "2018-01"; "2018-01"]%string.
Proof. reflexivity. Qed.

Example olist_sample_loaded :
  let df := load_data_from_parquet (Some olist_sample) in
  column delivery_days df = [num 2; num 3; num 3; num 50]
  /\ rows (load_data_from_parquet (Some undelivered_sample)) = []
  /\ rows (load_data_from_parquet None) = [].
Proof. repeat split. Qed.

Example olist_sample_SP :
  option_map
    (fun dash => (shown_total_orders dash, shown_at_risk_cnt dash,
                  shown_worst_case_cnt dash, shown_Segment dash))
    (main (Some olist_sample) [Some "SP"%string])
  = Some (2%nat, 0%nat, 0%nat, [Normal; Normal]).
Proof. reflexivity. Qed.

(** * Masks and columns, row by row *)

Section RowView.
Context {A : Type}.
Implicit Types (l : list A) (p q : A -> bool).

Lemma mask_and_map l p q :
  mask_and (map p l) (map q l) = map (fun x => p x && q x) l.
Proof.
  unfold mask_and. induction l as [|x l IH]; simpl; [reflexivity|].
  now rewrite IH.
Qed.

Lemma mask_or_map l p q :
  mask_or (map p l) (map q l) = map (fun x => p x || q x) l.
Proof.
  unfold mask_or. induction l as [|x l IH]; simpl; [reflexivity|].
  now rewrite IH.
Qed.

Lemma getitem_mask_map l p : getitem_mask l (map p l) = filter p l.
Proof.
  induction l as [|x l IH]; simpl; [reflexivity|].
  destruct (p x); now rewrite IH.
Qed.

Lemma loc_assign_map {B} l p (v : B) (g : A -> B) :
  loc_assign (map p l) v (map g l) = map (fun x => if p x then v else g x) l.
Proof.
  unfold loc_assign. induction l as [|x l IH]; simpl; [reflexivity|].
  now rewrite IH.
Qed.

End RowView.

Lemma series_gt_column (f : Order -> float) df y :
  series_gt (column f df) y = map (fun o => gt (f o) y) (rows df).
Proof. unfold series_gt, column. apply map_map. Qed.

Lemma series_le_column (f : Order -> float) df y :
  series_le (column f df) y = map (fun o => le (f o) y) (rows df).
Proof. unfold series_le, column. apply map_map. Qed.

(** Rewrites a mask expression over a frame's columns into one [map] over its
    rows. *)
Ltac row_view :=
  repeat first
    [ rewrite series_gt_column
    | rewrite series_le_column
    | rewrite mask_and_map
    | rewrite mask_or_map
    | rewrite loc_assign_map
    | rewrite getitem_mask_map ].

Lemma thresholds_eta (th : Thresholds) :
  th = (f_limit th, d_limit th, f_warning th, d_warning th).
Proof. now destruct th as [[[a b] c] d]. Qed.

Lemma at_risk_cnt_rows plot_df th :
  at_risk_cnt plot_df th = length (filter (at_risk_bandb th) (rows plot_df)).
Proof.
  rewrite (thresholds_eta th) at 1. unfold at_risk_cnt.
  row_view. reflexivity.
Qed.

Lemma worst_case_cnt_rows plot_df th :
  worst_case_cnt plot_df th = length (filter (worst_case_bandb th) (rows plot_df)).
Proof.
  rewrite (thresholds_eta th) at 1. unfold worst_case_cnt.
  row_view. reflexivity.
Qed.

Lemma outliers_df_rows plot_df th :
  outliers_df plot_df th = filter (fun o => is_outlier o th) (rows plot_df).
Proof.
  rewrite (thresholds_eta th) at 1. unfold outliers_df.
  row_view. reflexivity.
Qed.

Lemma assign_segments_rows plot_df th :
  assign_segments plot_df th = map (fun o => classify o th) (rows plot_df).
Proof.
  rewrite (thresholds_eta th) at 1. unfold assign_segments.
  row_view. reflexivity.
Qed.

(** ** Comparisons against their meaning *)

Lemma Qlt_bool_iff a b : Qlt_bool a b = true <-> a < b.
Proof.
  unfold Qlt_bool. rewrite negb_true_iff, <- not_true_iff_false, Qle_bool_iff.
  split; [apply Qnot_le_lt | apply Qlt_not_le].
Qed.

Lemma gt_exceeds x y : gt x y = true <-> exceeds x y.
Proof.
  unfold gt, exceeds. destruct x as [v|], y as [b|]; split.
  - intros H. exists v, b. now rewrite <- Qlt_bool_iff.
  - intros (v' & b' & [= <-] & [= <-] & H). now apply Qlt_bool_iff.
  - discriminate.
  - intros (? & ? & _ & [=] & _).
  - discriminate.
  - intros (? & ? & [=] & _).
  - discriminate.
  - intros (? & ? & [=] & _).
Qed.

Lemma band_in_half_open lo hi x :
  gt x lo && le x hi = true <-> in_half_open lo hi x.
Proof.
  unfold in_half_open. rewrite andb_true_iff. split.
  - intros [Hg Hl]. destruct x as [v|], lo as [a|], hi as [b|];
      simpl in Hg, Hl; try discriminate.
    exists a, b, v. rewrite <- Qlt_bool_iff, <- Qle_bool_iff. auto.
  - intros (a & b & v & -> & -> & -> & Hlt & Hle). simpl.
    now rewrite Qlt_bool_iff, Qle_bool_iff.
Qed.

Lemma at_risk_bandb_spec th o : at_risk_bandb th o = true <-> at_risk_band th o.
Proof.
  unfold at_risk_bandb, at_risk_band.
  now rewrite orb_true_iff, !band_in_half_open.
Qed.

Lemma worst_case_bandb_spec th o :
  worst_case_bandb th o = true <-> worst_case_band th o.
Proof.
  unfold worst_case_bandb, worst_case_band.
  now rewrite andb_true_iff, !gt_exceeds.
Qed.

(** * Risk bands *)

(** C5: the at-risk counter counts the records whose delivery days lie in
    (delivery_warning, delivery_limit] or whose freight lies in
    (freight_warning, freight_limit]; the worst-case counter counts the
    records beyond both limits. *)
Theorem countByRiskBand_counts plot_df th :
  at_risk_cnt plot_df th = length (filter (at_risk_bandb th) (rows plot_df))
  /\ worst_case_cnt plot_df th
     = length (filter (worst_case_bandb th) (rows plot_df))
  /\ (forall o, at_risk_bandb th o = true <-> at_risk_band th o)
  /\ (forall o, worst_case_bandb th o = true <-> worst_case_band th o).
Proof.
  split; [apply at_risk_cnt_rows|].
  split; [apply worst_case_cnt_rows|].
  split; intros o; [apply at_risk_bandb_spec | apply worst_case_bandb_spec].
Qed.

(** * Segments *)

Lemma nth_error_assign_segments plot_df th i o :
  nth_error (rows plot_df) i = Some o ->
  nth_error (assign_segments plot_df th) i = Some (classify o th).
Proof.
  intros H. rewrite assign_segments_rows.
  exact (map_nth_error (fun o => classify o th) i (rows plot_df) H).
Qed.

Lemma is_outlier_classify o th : is_outlier o th = outlier_segment (classify o th).
Proof.
  unfold is_outlier, classify.
  destruct (gt (delivery_days o) (d_limit th)), (gt (freight_value o) (f_limit th)),
    (gt (delivery_days o) (d_warning th)), (gt (freight_value o) (f_warning th));
    reflexivity.
Qed.

Lemma outliers_df_by_segment plot_df th :
  outliers_df plot_df th
  = getitem_mask (rows plot_df) (map outlier_segment (assign_segments plot_df th)).
Proof.
  rewrite outliers_df_rows, assign_segments_rows, map_map, getitem_mask_map.
  apply filter_ext. intros o. apply is_outlier_classify.
Qed.

(** C10: a record with both metrics present is in the outlier table exactly
    when its segment is High Freight, Delayed or Worst Case; the table is the
    frame without its Normal and At-Risk rows. *)
Theorem outlier_table_iff_segment plot_df th i o fv dd :
  nth_error (rows plot_df) i = Some o ->
  freight_value o = Some fv ->
  delivery_days o = Some dd ->
  exists s,
    nth_error (assign_segments plot_df th) i = Some s
    /\ (exceeds (delivery_days o) (d_limit th)
        \/ exceeds (freight_value o) (f_limit th)
        <-> s = High_Freight \/ s = Delayed \/ s = Worst_Case)
    /\ (In o (outliers_df plot_df th) <-> outlier_segment s = true)
    /\ outliers_df plot_df th
       = getitem_mask (rows plot_df)
           (map outlier_segment (assign_segments plot_df th)).
Proof.
  intros Hi _ _. exists (classify o th).
  split; [now apply nth_error_assign_segments|].
  split; [|split; [|apply outliers_df_by_segment]].
  - rewrite <- !gt_exceeds, <- orb_true_iff.
    change (is_outlier o th = true
            <-> classify o th = High_Freight \/ classify o th = Delayed
                \/ classify o th = Worst_Case).
    rewrite is_outlier_classify.
    destruct (classify o th); simpl; intuition discriminate.
  - rewrite outliers_df_rows, filter_In, is_outlier_classify.
    apply nth_error_In in Hi. tauto.
Qed.

Lemma outlier_table_iff_segment_witness :
  exists s,
    nth_error (assign_segments (frame_of [metrics_row (num 20) (num 1)]) ten_eight) 0
    = Some s
    /\ s = High_Freight.
Proof.
  destruct (outlier_table_iff_segment
              (frame_of [metrics_row (num 20) (num 1)]) ten_eight 0
              (metrics_row (num 20) (num 1)) 20 1
              eq_refl eq_refl eq_refl) as (s & Hs & _).
  exists s. split; [exact Hs|].
  vm_compute in Hs. now injection Hs as <-.
Defined.

(** C6, as stated, fails: a record without freight value is given a segment. *)
Lemma missing_freight_is_labelled :
  freight_value (metrics_row NaN (num 1)) = NaN
  /\ assign_segments (frame_of [metrics_row NaN (num 1)]) ten_eight = [Normal].
Proof. split; reflexivity. Qed.

(** C6, amended: a record with a missing metric is never rejected; every
    comparison on the missing metric is false, so its segment is the one the
    other metric alone gives, and Normal when both are missing. *)
Theorem missing_field_labelled_by_other plot_df th i o :
  nth_error (rows plot_df) i = Some o ->
  freight_value o = NaN \/ delivery_days o = NaN ->
  exists s,
    nth_error (assign_segments plot_df th) i = Some s
    /\ (freight_value o = NaN -> s = label_by_delivery (delivery_days o) th)
    /\ (delivery_days o = NaN -> s = label_by_freight (freight_value o) th)
    /\ (freight_value o = NaN -> delivery_days o = NaN -> s = Normal).
Proof.
  intros Hi _. exists (classify o th).
  split; [now apply nth_error_assign_segments|].
  unfold classify, label_by_delivery, label_by_freight.
  repeat split.
  - intros ->. simpl. rewrite !orb_false_r, !andb_false_r.
    now destruct (gt (delivery_days o) (d_limit th)).
  - intros ->. simpl.
    now destruct (gt (freight_value o) (f_limit th)).
  - now intros -> ->.
Qed.

Lemma missing_field_labelled_by_other_witness :
  exists s,
    nth_error (assign_segments (frame_of [metrics_row NaN (num 9)]) ten_eight) 0
    = Some s
    /\ s = At_Risk.
Proof.
  destruct (missing_field_labelled_by_other
              (frame_of [metrics_row NaN (num 9)]) ten_eight 0
              (metrics_row NaN (num 9)) eq_refl (or_introl eq_refl))
    as (s & Hs & Hd & _).
  exists s. split; [exact Hs|]. now rewrite (Hd eq_refl).
Defined.

(** ** The order of the overwrites *)

Lemma rule_mask_rows r plot_df th :
  rule_mask r plot_df th = map (fun o => rule_applies r o th) (rows plot_df).
Proof. destruct r; unfold rule_mask; row_view; reflexivity. Qed.

Lemma run_rules_from rules plot_df th (g : Order -> Segment) :
  fold_left (fun seg r => loc_assign (rule_mask r plot_df th) (rule_label r) seg)
            rules (map g (rows plot_df))
  = map (fun o => run_rules_on rules o th (g o)) (rows plot_df).
Proof.
  revert g. induction rules as [|r rules IH]; intros g; simpl.
  - reflexivity.
  - rewrite rule_mask_rows, loc_assign_map. apply IH.
Qed.

Lemma run_rules_rows rules plot_df th :
  run_rules rules plot_df th
  = map (fun o => run_rules_on rules o th Normal) (rows plot_df).
Proof. unfold run_rules. apply run_rules_from. Qed.

Lemma run_rules_source_order plot_df th :
  run_rules [rule_at_risk; rule_high_freight; rule_delayed; rule_worst_case]
            plot_df th
  = assign_segments plot_df th.
Proof. now rewrite run_rules_rows, assign_segments_rows. Qed.

(** With the at-risk rule first and the worst-case rule last, the two rules
    in between commute. *)
Lemma run_rules_swap_middle plot_df th :
  run_rules [rule_at_risk; rule_delayed; rule_high_freight; rule_worst_case]
            plot_df th
  = assign_segments plot_df th.
Proof.
  rewrite run_rules_rows, assign_segments_rows. apply map_ext. intros o.
  unfold run_rules_on, classify. simpl.
  destruct (gt (delivery_days o) (d_limit th)),
    (gt (freight_value o) (f_limit th)); simpl; reflexivity.
Qed.

(** One order over the freight fence and one over the delivery fence. *)
Lemma at_risk_rule_not_first_differs p :
  In p [ [rule_high_freight; rule_at_risk; rule_delayed];
         [rule_high_freight; rule_delayed; rule_at_risk];
         [rule_delayed; rule_at_risk; rule_high_freight];
         [rule_delayed; rule_high_freight; rule_at_risk] ] ->
  let plot_df := frame_of [metrics_row (num 20) (num 1); metrics_row (num 1) (num 20)] in
  run_rules (p ++ [rule_worst_case]) plot_df ten_eight
  <> assign_segments plot_df ten_eight.
Proof.
  simpl. intros [<-|[<-|[<-|[<-|[]]]]]; vm_compute; discriminate.
Qed.

Lemma permutations_of_three (a b c : Rule) p :
  Permutation p [a; b; c] ->
  In p [ [a; b; c]; [a; c; b]; [b; a; c]; [b; c; a]; [c; a; b]; [c; b; a] ].
Proof.
  intros H.
  pose proof (Permutation_length H) as Hlen.
  destruct p as [|x [|y [|z [|]]]]; try discriminate Hlen.
  clear Hlen.
  assert (Hx : In x [a; b; c]) by (apply (Permutation_in x H); now left).
  simpl in Hx. destruct Hx as [<-|[<-|[<-|[]]]].
  - apply Permutation_cons_inv, Permutation_length_2_inv in H.
    destruct H as [[= <- <-]|[= <- <-]]; simpl; tauto.
  - assert (H' : Permutation (b :: [y; z]) (b :: [a; c])).
    { rewrite H. apply perm_swap. }
    apply Permutation_cons_inv, Permutation_length_2_inv in H'.
    destruct H' as [[= <- <-]|[= <- <-]]; simpl; tauto.
  - assert (H' : Permutation (c :: [y; z]) (c :: [a; b])).
    { rewrite H. eapply perm_trans; [apply perm_skip, perm_swap | apply perm_swap]. }
    apply Permutation_cons_inv, Permutation_length_2_inv in H'.
    destruct H' as [[= <- <-]|[= <- <-]]; simpl; tauto.
Qed.

(** C3, as stated, fails: running the high-freight overwrite before the
    at-risk one relabels an order over the freight fence from High Freight to
    At-Risk. *)
Lemma reordered_cascade_differs :
  Permutation [rule_high_freight; rule_at_risk; rule_delayed]
              [rule_at_risk; rule_high_freight; rule_delayed]
  /\ assign_segments (frame_of [metrics_row (num 20) (num 1)]) ten_eight
     = [High_Freight]
  /\ run_rules ([rule_high_freight; rule_at_risk; rule_delayed] ++ [rule_worst_case])
       (frame_of [metrics_row (num 20) (num 1)]) ten_eight
     = [At_Risk].
Proof.
  split; [apply perm_swap|]. split; reflexivity.
Qed.

(** C3, amended: a reordering of overwrites 2-4, with overwrite 5 last, gives
    the source's segments on every frame and threshold set exactly when it
    keeps the at-risk overwrite (2) first; so only the high-freight (3) and
    delayed (4) overwrites may be exchanged. *)
Theorem cascade_reordering p :
  Permutation p [rule_at_risk; rule_high_freight; rule_delayed] ->
  (forall plot_df th,
      run_rules (p ++ [rule_worst_case]) plot_df th = assign_segments plot_df th)
  <-> hd_error p = Some rule_at_risk.
Proof.
  intros Hp. apply permutations_of_three in Hp. simpl in Hp.
  destruct Hp as [<-|[<-|Hp]].
  - split; [reflexivity|]. intros _ plot_df th. apply run_rules_source_order.
  - split; [reflexivity|]. intros _ plot_df th. apply run_rules_swap_middle.
  - split; [|destruct Hp as [<-|[<-|[<-|[<-|[]]]]]; discriminate].
    intros Hall. exfalso.
    apply (at_risk_rule_not_first_differs p); [simpl; tauto|].
    apply Hall.
Qed.

Lemma cascade_reordering_witness :
  run_rules ([rule_at_risk; rule_delayed; rule_high_freight] ++ [rule_worst_case])
            (frame_of [metrics_row (num 20) (num 1); metrics_row (num 1) (num 20)])
            ten_eight
  = assign_segments
      (frame_of [metrics_row (num 20) (num 1); metrics_row (num 1) (num 20)])
      ten_eight.
Proof.
  apply (cascade_reordering [rule_at_risk; rule_delayed; rule_high_freight]).
  - apply perm_skip, perm_swap.
  - reflexivity.
Defined.

(** * Order statistics *)

Section Sorting.
Context {A : Type} (leb : A -> A -> bool).

Lemma insert_sorted_perm x l : Permutation (x :: l) (insert_sorted leb x l).
Proof.
  induction l as [|y l IH]; simpl; [reflexivity|].
  destruct (leb x y); [reflexivity|].
  rewrite perm_swap. now apply perm_skip.
Qed.

Lemma sort_values_perm l : Permutation l (sort_values leb l).
Proof.
  induction l as [|x l IH]; simpl; [constructor|].
  rewrite <- insert_sorted_perm. now apply perm_skip.
Qed.

Lemma sort_values_length l : length (sort_values leb l) = length l.
Proof. symmetry. apply Permutation_length, sort_values_perm. Qed.

Lemma sort_values_Forall (P : A -> Prop) l :
  Forall P l -> Forall P (sort_values leb l).
Proof. intros H. now rewrite <- sort_values_perm. Qed.

Lemma sort_values_nil l : sort_values leb l = [] -> l = [].
Proof.
  intros H. apply length_zero_iff_nil.
  now rewrite <- sort_values_length, H.
Qed.

End Sorting.

Lemma insert_sorted_Qle x l :
  StronglySorted Qle l -> StronglySorted Qle (insert_sorted Qle_bool x l).
Proof.
  induction 1 as [|y l Hl IH Hy]; simpl.
  - repeat constructor.
  - destruct (Qle_bool x y) eqn:E.
    + apply Qle_bool_iff in E. constructor; [now constructor|].
      constructor; [exact E|].
      eapply Forall_impl; [|exact Hy]. intros z Hz. now apply Qle_trans with y.
    + assert (y <= x) as Hyx.
      { apply Qlt_le_weak, Qnot_le_lt. rewrite <- Qle_bool_iff. congruence. }
      constructor; [exact IH|].
      rewrite <- insert_sorted_perm. now constructor.
Qed.

Lemma sort_values_Qle l : StronglySorted Qle (sort_values Qle_bool l).
Proof.
  induction l as [|x l IH]; simpl; [constructor|].
  now apply insert_sorted_Qle.
Qed.

Lemma nth_sorted_le l d i j :
  StronglySorted Qle l -> (i <= j)%nat -> (j < length l)%nat ->
  nth i l d <= nth j l d.
Proof.
  intros Hs. revert i j. induction Hs as [|x l Hl IH Hx]; intros i j Hij Hj.
  - simpl in Hj. lia.
  - destruct i as [|i], j as [|j]; simpl in *; try lia.
    + apply Qle_refl.
    + rewrite Forall_forall in Hx. apply Hx, nth_In. lia.
    + apply IH; lia.
Qed.

(** ** Linear interpolation between order statistics *)

Lemma lerp_between a b t :
  a <= b -> 0 <= t -> t <= 1 -> a <= lerp a b t /\ lerp a b t <= b.
Proof. unfold lerp. intros. split; nra. Qed.

Lemma lerp_mono a b s t : a <= b -> s <= t -> lerp a b s <= lerp a b t.
Proof. unfold lerp. intros. nra. Qed.

Lemma lerp_const v a b t : a == v -> b == v -> lerp a b t == v.
Proof. unfold lerp. intros -> ->. ring. Qed.

Lemma Some_eq {A} (a b : A) : Some a = Some b -> a = b.
Proof. congruence. Qed.

Lemma percentile_linear_cons v0 t q :
  percentile_linear (v0 :: t) q
  = Some (lerp (nth (previous_index (length (v0 :: t)) q) (v0 :: t) v0)
               (nth (next_index (length (v0 :: t)) q) (v0 :: t) v0)
               (weight (length (v0 :: t)) q)).
Proof. reflexivity. Qed.

Section Indices.
Variables (n : nat) (q : Q).
Hypothesis n_pos : (0 < n)%nat.
Hypothesis q_lo : 0 <= q.
Hypothesis q_hi : q <= 1.

Let N : Q := inject_Z (Z.of_nat n) - 1.

Lemma last_index_Q : N == inject_Z (Z.of_nat (n - 1)).
Proof.
  unfold N. rewrite Nat2Z.inj_sub by lia. simpl (Z.of_nat 1).
  unfold Zminus. rewrite inject_Z_plus, inject_Z_opp. reflexivity.
Qed.

Lemma virtual_index_bounds : 0 <= N * q /\ N * q <= N.
Proof.
  assert (0 <= N).
  { rewrite last_index_Q. change 0 with (inject_Z 0). rewrite <- Zle_Qle. lia. }
  split; nra.
Qed.

Lemma floor_bounds :
  (0 <= Qfloor (N * q))%Z /\ (Qfloor (N * q) <= Z.of_nat (n - 1))%Z.
Proof.
  destruct virtual_index_bounds as [H0 H1]. split.
  - change 0%Z with (Qfloor 0). now apply Qfloor_resp_le.
  - rewrite <- (Qfloor_Z (Z.of_nat (n - 1))). apply Qfloor_resp_le.
    now rewrite <- last_index_Q.
Qed.

Lemma previous_index_in_range : (previous_index n q <= n - 1)%nat.
Proof. unfold previous_index. fold N. destruct floor_bounds. lia. Qed.

Lemma next_index_in_range :
  (previous_index n q <= next_index n q)%nat /\ (next_index n q <= n - 1)%nat.
Proof.
  unfold next_index. pose proof previous_index_in_range. lia.
Qed.

Lemma weight_bounds : 0 <= weight n q /\ weight n q <= 1.
Proof.
  unfold weight. fold N.
  pose proof (Qfloor_le (N * q)). pose proof (Qlt_floor (N * q)) as Hlt.
  rewrite inject_Z_plus in Hlt. change (inject_Z 1) with 1 in Hlt.
  split; lra.
Qed.

End Indices.

Lemma previous_index_mono n q1 q2 :
  (0 < n)%nat -> 0 <= q1 -> q1 <= q2 ->
  (previous_index n q1 <= previous_index n q2)%nat.
Proof.
  intros Hn H1 H12. unfold previous_index.
  apply Z2Nat.inj_le.
  - change 0%Z with (Qfloor 0). apply Qfloor_resp_le.
    rewrite (last_index_Q n Hn).
    assert (0 <= inject_Z (Z.of_nat (n - 1))).
    { change 0 with (inject_Z 0). rewrite <- Zle_Qle. lia. }
    nra.
  - change 0%Z with (Qfloor 0). apply Qfloor_resp_le.
    rewrite (last_index_Q n Hn).
    assert (0 <= inject_Z (Z.of_nat (n - 1))).
    { change 0 with (inject_Z 0). rewrite <- Zle_Qle. lia. }
    nra.
  - apply Qfloor_resp_le. rewrite (last_index_Q n Hn).
    assert (0 <= inject_Z (Z.of_nat (n - 1))).
    { change 0 with (inject_Z 0). rewrite <- Zle_Qle. lia. }
    nra.
Qed.

Lemma weight_mono_same_index n q1 q2 :
  (0 < n)%nat -> 0 <= q1 -> q1 <= q2 -> q2 <= 1 ->
  previous_index n q1 = previous_index n q2 ->
  weight n q1 <= weight n q2.
Proof.
  intros Hn H1 H12 H2 Heq. unfold previous_index in Heq.
  destruct (floor_bounds n q1 Hn H1 ltac:(lra)) as [Ha _].
  destruct (floor_bounds n q2 Hn ltac:(lra) H2) as [Hb _].
  apply Z2Nat.inj in Heq; [|assumption..].
  unfold weight. rewrite Heq.
  assert (0 <= inject_Z (Z.of_nat n) - 1).
  { rewrite (last_index_Q n Hn). change 0 with (inject_Z 0).
    rewrite <- Zle_Qle. lia. }
  nra.
Qed.

(** On sorted values, a larger quantile is a larger number. *)
Lemma percentile_linear_mono xs q1 q2 :
  StronglySorted Qle xs -> xs <> [] ->
  0 <= q1 -> q1 <= q2 -> q2 <= 1 ->
  exists a b,
    percentile_linear xs q1 = Some a /\ percentile_linear xs q2 = Some b
    /\ a <= b.
Proof.
  intros Hs Hne H1 H12 H2.
  destruct xs as [|v0 t]; [congruence|]. clear Hne.
  rewrite !percentile_linear_cons.
  set (xs := v0 :: t) in *. set (n := length xs).
  assert (Hn : (0 < n)%nat) by (unfold n; simpl; lia).
  assert (H1' : q1 <= 1) by lra. assert (H2' : 0 <= q2) by lra.
  pose proof (previous_index_in_range n q1 Hn H1 H1') as Hp1.
  pose proof (previous_index_in_range n q2 Hn H2' H2) as Hp2.
  destruct (next_index_in_range n q1 Hn H1 H1') as [Hn1 Hn1'].
  destruct (next_index_in_range n q2 Hn H2' H2) as [Hn2 Hn2'].
  destruct (weight_bounds n q1) as [Hw1 Hw1'].
  destruct (weight_bounds n q2) as [Hw2 Hw2'].
  pose proof (previous_index_mono n q1 q2 Hn H1 H12) as Hmono.
  assert (Hord : forall i j, (i <= j)%nat -> (j <= n - 1)%nat ->
                             nth i xs v0 <= nth j xs v0).
  { intros i j Hij Hj. apply nth_sorted_le; [exact Hs|exact Hij|].
    fold n. lia. }
  eexists _, _. split; [reflexivity|]. split; [reflexivity|].
  destruct (Nat.eq_dec (previous_index n q1) (previous_index n q2)) as [E|NE].
  - unfold next_index. rewrite <- E. fold (next_index n q1).
    apply lerp_mono; [now apply Hord|].
    now apply weight_mono_same_index.
  - apply Qle_trans with (nth (next_index n q1) xs v0).
    + apply lerp_between; auto.
    + apply Qle_trans with (nth (previous_index n q2) xs v0).
      * apply Hord; [unfold next_index; lia | exact Hp2].
      * apply lerp_between; auto.
Qed.

(** On sorted values bounded below by [c], so is every quantile. *)
Lemma percentile_linear_lower_bound xs q c r :
  StronglySorted Qle xs -> Forall (Qle c) xs ->
  0 <= q -> q <= 1 ->
  percentile_linear xs q = Some r -> c <= r.
Proof.
  intros Hs Hc H0 H1. destruct xs as [|v0 t]; [discriminate|].
  rewrite percentile_linear_cons. intros <-%Some_eq.
  set (xs := v0 :: t) in *. set (n := length xs).
  assert (Hn : (0 < n)%nat) by (unfold n; simpl; lia).
  pose proof (previous_index_in_range n q Hn H0 H1) as Hp.
  destruct (next_index_in_range n q Hn H0 H1) as [Hnx Hnx'].
  destruct (weight_bounds n q) as [Hw Hw'].
  apply Qle_trans with (nth (previous_index n q) xs v0).
  - rewrite Forall_forall in Hc. apply Hc, nth_In. fold n. lia.
  - apply lerp_between; auto.
    apply nth_sorted_le; [exact Hs|exact Hnx|fold n; lia].
Qed.

(** On values that all equal [v], every quantile is [v]. *)
Lemma percentile_linear_const xs q v r :
  Forall (fun x => x == v) xs ->
  0 <= q -> q <= 1 ->
  percentile_linear xs q = Some r -> r == v.
Proof.
  intros Hv H0 H1. destruct xs as [|v0 t]; [discriminate|].
  rewrite percentile_linear_cons. intros <-%Some_eq.
  set (xs := v0 :: t) in *. set (n := length xs).
  assert (Hn : (0 < n)%nat) by (unfold n; simpl; lia).
  pose proof (previous_index_in_range n q Hn H0 H1) as Hp.
  destruct (next_index_in_range n q Hn H0 H1) as [Hnx Hnx'].
  rewrite Forall_forall in Hv.
  apply lerp_const; apply Hv, nth_In; fold n; lia.
Qed.

(** * Thresholds *)

Lemma quartiles_ordered s :
  has_value s ->
  exists q1 q3,
    quantile s 0.25 = Some q1 /\ quantile s 0.75 = Some q3 /\ q1 <= q3.
Proof.
  intros Hs. unfold quantile.
  apply percentile_linear_mono; try lra.
  - apply sort_values_Qle.
  - intros E. apply sort_values_nil in E. exact (Hs E).
Qed.

Lemma quantile_lower_bound s q c r :
  (forall x, In x (dropna_values s) -> c <= x) ->
  0 <= q -> q <= 1 -> quantile s q = Some r -> c <= r.
Proof.
  intros Hc H0 H1. unfold quantile.
  apply percentile_linear_lower_bound; auto.
  - apply sort_values_Qle.
  - apply sort_values_Forall. now apply Forall_forall.
Qed.

Lemma quantile_const s q v r :
  (forall x, In x (dropna_values s) -> x == v) ->
  0 <= q -> q <= 1 -> quantile s q = Some r -> r == v.
Proof.
  intros Hv H0 H1. unfold quantile.
  apply percentile_linear_const; auto.
  apply sort_values_Forall. now apply Forall_forall.
Qed.

Lemma fence_value s q1 q3 :
  quantile s 0.25 = Some q1 -> quantile s 0.75 = Some q3 ->
  fence s = Some (q3 + 1.5 * (q3 - q1))
  /\ fence_warning s = Some ((q3 + 1.5 * (q3 - q1)) * 0.8).
Proof.
  intros E1 E3. unfold fence_warning, fence. rewrite E1, E3. split; reflexivity.
Qed.

Lemma fence_facts_holds s : has_value s -> fence_facts s (fence s) (fence_warning s).
Proof.
  intros Hs. destruct (quartiles_ordered s Hs) as (q1 & q3 & E1 & E3 & Hle).
  destruct (fence_value s q1 q3 E1 E3) as [El Ew].
  exists q3, (q3 + 1.5 * (q3 - q1)), ((q3 + 1.5 * (q3 - q1)) * 0.8).
  repeat split; auto; try lra.
  intros Hpos.
  assert (0 <= q3) by (apply (quantile_lower_bound s 0.75); auto; lra).
  lra.
Qed.

Lemma degenerate_fence_holds s v :
  single_valued s v -> degenerate_fence s v (fence s) (fence_warning s).
Proof.
  intros [Hs Hv]. destruct (quartiles_ordered s Hs) as (q1 & q3 & E1 & E3 & _).
  destruct (fence_value s q1 q3 E1 E3) as [El Ew].
  assert (H1 : q1 == v) by (apply (quantile_const s 0.25); auto; lra).
  assert (H3 : q3 == v) by (apply (quantile_const s 0.75); auto; lra).
  exists q1, q3, (q3 + 1.5 * (q3 - q1)), ((q3 + 1.5 * (q3 - q1)) * 0.8).
  repeat split; auto; try lra.
  - rewrite El. simpl. rewrite Qlt_bool_iff. lra.
  - rewrite El. simpl. rewrite Qlt_bool_iff. lra.
Qed.

Lemma field_thresholds fld df :
  field_limit fld (calculate_dynamic_thresholds df) = fence (field_column fld df)
  /\ field_warning fld (calculate_dynamic_thresholds df)
     = fence_warning (field_column fld df).
Proof. destruct fld; split; reflexivity. Qed.

Lemma dropna_values_In {A} (s : list (option A)) a :
  In a (dropna_values s) <-> In (Some a) s.
Proof.
  induction s as [|[b|] s IH]; simpl.
  - tauto.
  - rewrite IH. split; intros [H|H]; auto; left; congruence.
  - rewrite IH. split; [auto|]. intros [H|H]; [discriminate H | exact H].
Qed.

(** C4: on a column with at least one value and no negative value (freight
    values are non-negative amounts, deliveries follow purchases), the warning
    is 0.8 times the limit, the limit is at least Q3, and the warning is at
    most the limit. *)
Theorem thresholds_warning_below_limit df fld :
  has_value (field_column fld df) ->
  (forall x, In (Some x) (field_column fld df) -> 0 <= x) ->
  exists q3 l w,
    quantile (field_column fld df) 0.75 = Some q3
    /\ field_limit fld (calculate_dynamic_thresholds df) = Some l
    /\ field_warning fld (calculate_dynamic_thresholds df) = Some w
    /\ w == 0.8 * l
    /\ q3 <= l
    /\ w <= l.
Proof.
  intros Hs Hpos. destruct (field_thresholds fld df) as [-> ->].
  destruct (fence_facts_holds _ Hs) as (q3 & l & w & E3 & El & Ew & Hw & Hq & _ & Hwl).
  exists q3, l, w. repeat split; try assumption.
  apply Hwl. intros x Hx. apply Hpos. now apply dropna_values_In.
Qed.

Lemma thresholds_warning_below_limit_witness :
  exists q3 l w,
    quantile (column freight_value (load_data_from_parquet (Some olist_sample))) 0.75
    = Some q3
    /\ f_limit (calculate_dynamic_thresholds
                  (load_data_from_parquet (Some olist_sample))) = Some l
    /\ f_warning (calculate_dynamic_thresholds
                    (load_data_from_parquet (Some olist_sample))) = Some w
    /\ w == 0.8 * l /\ q3 <= l /\ w <= l.
Proof.
  apply (thresholds_warning_below_limit
           (load_data_from_parquet (Some olist_sample)) Freight).
  - vm_compute. discriminate.
  - intros x Hx. vm_compute in Hx.
    destruct Hx as [Hx|[Hx|[Hx|[Hx|[]]]]]; apply Some_eq in Hx; subst x;
      discriminate.
Defined.

(** C2, as stated, fails: on a column whose values are all 10 the limit is
    Q3 = 10 but the warning is 8, not Q3. *)
Lemma single_value_warning_below_limit :
  let df := frame_of [metrics_row (num 10) (num 3); metrics_row (num 10) (num 5)] in
  let th := calculate_dynamic_thresholds df in
  single_valued (column freight_value df) 10
  /\ feq (quantile (column freight_value df) 0.75) (num 10)
  /\ feq (f_limit th) (num 10)
  /\ feq (f_warning th) (num 8)
  /\ ~ feq (f_warning th) (f_limit th).
Proof.
  repeat split; try discriminate.
  simpl. intros x [<-|[<-|[]]]; reflexivity.
Qed.

(** C2, amended: on a column whose values all equal [v], Q1 = Q3 = v, the IQR
    is 0, the limit is Q3 and the warning is 0.8 times [v]; a value is beyond
    the limit exactly when it is above [v]. *)
Theorem single_value_thresholds df fld v :
  single_valued (field_column fld df) v ->
  degenerate_fence (field_column fld df) v
    (field_limit fld (calculate_dynamic_thresholds df))
    (field_warning fld (calculate_dynamic_thresholds df)).
Proof.
  intros Hs. destruct (field_thresholds fld df) as [-> ->].
  now apply degenerate_fence_holds.
Qed.

Lemma single_value_thresholds_witness :
  degenerate_fence
    (column delivery_days (load_data_from_parquet (Some clock_skew_sample)))
    (-1)
    (d_limit (calculate_dynamic_thresholds
                (load_data_from_parquet (Some clock_skew_sample))))
    (d_warning (calculate_dynamic_thresholds
                  (load_data_from_parquet (Some clock_skew_sample)))).
Proof.
  apply (single_value_thresholds
           (load_data_from_parquet (Some clock_skew_sample)) Delivery (-1)).
  split.
  - vm_compute. discriminate.
  - simpl. intros x [<-|[]]. reflexivity.
Defined.

Lemma quantile_NaN_iff s q : quantile s q = NaN <-> ~ has_value s.
Proof.
  unfold quantile, has_value. split.
  - intros E Hs. destruct (sort_values Qle_bool (dropna_values s)) eqn:Es.
    + now apply sort_values_nil in Es.
    + discriminate E.
  - intros Hs. destruct (dropna_values s); [reflexivity|].
    exfalso. apply Hs. discriminate.
Qed.

Lemma fence_NaN_iff s :
  (fence s = NaN /\ fence_warning s = NaN) <-> ~ has_value s.
Proof.
  split.
  - intros [E _] Hs. destruct (quartiles_ordered s Hs) as (q1 & q3 & E1 & E3 & _).
    destruct (fence_value s q1 q3 E1 E3) as [El _].
    rewrite El in E. discriminate E.
  - intros Hs. unfold fence_warning, fence.
    rewrite !(proj2 (quantile_NaN_iff s _) Hs). split; reflexivity.
Qed.

Lemma main_None_iff parquet selected_state :
  main parquet selected_state = None
  <-> rows (load_data_from_parquet parquet) = [].
Proof.
  unfold main, empty.
  destruct (rows (load_data_from_parquet parquet)); simpl; split; intros H;
    reflexivity || discriminate H.
Qed.

(** * The page *)

(** C1, as stated, fails: with the state filter on SP the page shows two
    orders, whose freight limit would be 13, and fences them at the 71.5
    computed from the four loaded orders. *)
Lemma thresholds_ignore_filter :
  let df := load_data_from_parquet (Some olist_sample) in
  let plot_df := select_plot_df df [Some "SP"%string] in
  exists dash,
    main (Some olist_sample) [Some "SP"%string] = Some dash
    /\ column order_id plot_df = ["a"%string; "b"%string]
    /\ feq (f_limit (shown_thresholds dash)) (num 71.5)
    /\ feq (f_limit (calculate_dynamic_thresholds plot_df)) (num 13)
    /\ ~ feq (f_limit (shown_thresholds dash))
             (f_limit (calculate_dynamic_thresholds plot_df)).
Proof.
  eexists. split; [reflexivity|]. repeat split. discriminate.
Qed.

(** C1, amended: the thresholds the page shows and uses for the risk-band
    counters, the outlier table and the segments are those of the whole
    loaded frame; they are computed before the state filter, do not change
    with the selection, and depend only on the loaded [freight_value] and
    [delivery_days] columns. *)
Theorem thresholds_from_loaded_frame parquet selected_state dash :
  main parquet selected_state = Some dash ->
  let df := load_data_from_parquet parquet in
  let plot_df := select_plot_df df selected_state in
  let th := calculate_dynamic_thresholds df in
  shown_thresholds dash = th
  /\ shown_at_risk_cnt dash = at_risk_cnt plot_df th
  /\ shown_worst_case_cnt dash = worst_case_cnt plot_df th
  /\ shown_outliers_df dash = outliers_df plot_df th
  /\ shown_Segment dash = assign_segments plot_df th
  /\ (forall selected_state' dash',
         main parquet selected_state' = Some dash' ->
         shown_thresholds dash' = shown_thresholds dash)
  /\ (forall df',
         column freight_value df' = column freight_value df ->
         column delivery_days df' = column delivery_days df ->
         calculate_dynamic_thresholds df' = th).
Proof.
  unfold main. destruct (empty (load_data_from_parquet parquet)); [discriminate|].
  intros [= <-]. simpl. repeat split.
  - intros sel' dash' [= <-]. reflexivity.
  - intros df' Hf Hd. unfold calculate_dynamic_thresholds. now rewrite Hf, Hd.
Qed.

Lemma thresholds_from_loaded_frame_witness :
  exists dash,
    main (Some olist_sample) [Some "SP"%string] = Some dash
    /\ shown_thresholds dash
       = calculate_dynamic_thresholds (load_data_from_parquet (Some olist_sample)).
Proof.
  eexists. split; [reflexivity|].
  exact (proj1 (thresholds_from_loaded_frame
                  (Some olist_sample) [Some "SP"%string] _ eq_refl)).
Defined.

(** C7, as stated, fails: on a frame without rows (here the loaded frame of
    a file whose only order was not delivered) the function returns four NaN
    thresholds; it does not raise. *)
Lemma empty_frame_thresholds :
  rows (load_data_from_parquet (Some undelivered_sample)) = []
  /\ calculate_dynamic_thresholds (load_data_from_parquet (Some undelivered_sample))
     = (NaN, NaN, NaN, NaN).
Proof. split; reflexivity. Qed.

(** C7, amended: [calculate_dynamic_thresholds] never raises.  The limit and
    warning of a field are numbers exactly when the field has a value that is
    not missing, and NaN otherwise, so on a frame without rows all four are
    NaN.  [main] does not reach the computation on the empty frame: it
    returns early exactly when the loaded frame has no rows. *)
Theorem thresholds_defined_iff df fld :
  let th := calculate_dynamic_thresholds df in
  ((exists l w, field_limit fld th = Some l /\ field_warning fld th = Some w)
   <-> has_value (field_column fld df))
  /\ (field_limit fld th = NaN /\ field_warning fld th = NaN
      <-> ~ has_value (field_column fld df))
  /\ (rows df = [] -> th = (NaN, NaN, NaN, NaN))
  /\ (forall parquet selected_state,
         load_data_from_parquet parquet = df ->
         (main parquet selected_state = None <-> rows df = [])).
Proof.
  simpl. destruct (field_thresholds fld df) as [-> ->].
  split; [|split; [apply fence_NaN_iff|split]].
  - split.
    + intros (l & w & El & _) Hs.
      destruct (proj2 (fence_NaN_iff _) (fun H => H Hs)) as [E _].
      rewrite El in E. discriminate E.
    + intros Hs. destruct (fence_facts_holds _ Hs) as (_ & l & w & _ & El & Ew & _).
      now exists l, w.
  - unfold calculate_dynamic_thresholds, column. now intros ->.
  - intros parquet sel <-. apply main_None_iff.
Qed.

Lemma thresholds_defined_iff_witness :
  calculate_dynamic_thresholds (load_data_from_parquet (Some undelivered_sample))
  = (NaN, NaN, NaN, NaN)
  /\ main (Some undelivered_sample) [] = None.
Proof.
  pose proof (thresholds_defined_iff
                (load_data_from_parquet (Some undelivered_sample)) Freight)
    as (_ & _ & Hnan & Hmain).
  split; [exact (Hnan eq_refl)|].
  exact (proj2 (Hmain (Some undelivered_sample) [] eq_refl) eq_refl).
Defined.

(** C8: on this input the code departs from the claim.  With the state
    filter on SP the page shows the two SP orders, both bought in February
    2018, but the monthly lead-time table still has the January 2018 row of
    the two RJ orders: it is computed from the loaded frame, while the
    table of the filtered frame has the February row only. *)
Theorem monthly_table_ignores_filter :
  let df := load_data_from_parquet (Some olist_sample) in
  let plot_df := select_plot_df df [Some "SP"%string] in
  exists dash,
    main (Some olist_sample) [Some "SP"%string] = Some dash
    /\ column customer_state plot_df = [Some "SP"%string; Some "SP"%string]
    /\ shown_df_perf dash = df_perf df
    /\ map fst (shown_df_perf dash) = ["2018-01"%string; "2018-02"%string]
    /\ map fst (df_perf plot_df) = ["2018-02"%string].
Proof.
  eexists. split; [reflexivity|]. repeat split.
Qed.

(** C9: when every record lacks one of the three later timestamps, the
    monthly aggregate is the empty sequence. *)
Theorem monthly_aggregate_all_filtered df :
  (forall o, In o (rows df) ->
             order_approved_at o = NaT
             \/ order_delivered_carrier_date o = NaT
             \/ order_delivered_customer_date o = NaT) ->
  op_df df = [] /\ df_perf df = [].
Proof.
  intros Hall.
  assert (E : op_df df = []).
  { unfold op_df.
    replace (filter _ (rows df)) with (@nil Order); [reflexivity|].
    symmetry. induction (rows df) as [|o l IH]; [reflexivity|].
    simpl. destruct (Hall o (or_introl eq_refl)) as [-> | [-> | ->]]; simpl;
      rewrite ?andb_false_r; apply IH; intros o' Ho'; apply Hall; now right. }
  split; [exact E|]. unfold df_perf. rewrite E. reflexivity.
Qed.

Lemma monthly_aggregate_all_filtered_witness :
  df_perf (frame_of [metrics_row (num 20) (num 1); metrics_row (num 1) (num 20)]) = [].
Proof.
  apply (monthly_aggregate_all_filtered
           (frame_of [metrics_row (num 20) (num 1); metrics_row (num 1) (num 20)])).
  simpl. intros o [<-|[<-|[]]]; now left.
Defined.

(** * Beyond the segmentation engine *)

(** ** Distinct entries *)

Section Unique.
Context {A : Type} (eqb : A -> A -> bool).
Hypothesis eqb_eq : forall x y, eqb x y = true <-> x = y.

Lemma unique_In (l : list A) x : In x (unique eqb l) <-> In x l.
Proof.
  induction l as [|y l IH]; simpl; [tauto|].
  rewrite filter_In, IH, negb_true_iff. split.
  - intros [->|[H _]]; auto.
  - intros [->|H]; [now left|].
    destruct (eqb y x) eqn:E; [left; now apply eqb_eq | now right].
Qed.

Lemma unique_NoDup (l : list A) : NoDup (unique eqb l).
Proof.
  induction l as [|y l IH]; simpl; constructor.
  - rewrite filter_In, negb_true_iff. intros [_ E].
    rewrite (proj2 (eqb_eq y y) eq_refl) in E. discriminate.
  - now apply NoDup_filter.
Qed.

Lemma unique_nil (l : list A) : unique eqb l = [] <-> l = [].
Proof. destruct l; simpl; split; intros H; reflexivity || discriminate H. Qed.

Lemma existsb_eqb_In x (l : list A) : existsb (eqb x) l = true <-> In x l.
Proof.
  rewrite existsb_exists. split.
  - intros (y & Hy & E). apply eqb_eq in E. now subst.
  - intros H. exists x. split; [exact H | now apply eqb_eq].
Qed.

End Unique.

Lemma option_string_eqb_eq x y : option_string_eqb x y = true <-> x = y.
Proof.
  destruct x as [a|], y as [b|]; simpl; try (split; congruence).
  rewrite String.eqb_eq. split; congruence.
Qed.

Lemma with_rows_same df : with_rows df (rows df) = df.
Proof. now destruct df. Qed.

Lemma filter_all {A} (p : A -> bool) l :
  (forall x, In x l -> p x = true) -> filter p l = l.
Proof.
  induction l as [|x l IH]; intros H; simpl; [reflexivity|].
  rewrite (H x (or_introl eq_refl)), IH; [reflexivity|].
  intros y Hy. apply H. now right.
Qed.

Lemma filter_none {A} (p : A -> bool) l :
  (forall x, In x l -> p x = false) <-> filter p l = [].
Proof.
  induction l as [|x l IH]; simpl; [tauto|].
  destruct (p x) eqn:E; split.
  - intros H. rewrite (H x (or_introl eq_refl)) in E. discriminate.
  - discriminate.
  - intros H. apply IH. intros y Hy. apply H. now right.
  - intros H y [<-|Hy]; [exact E | now apply IH].
Qed.

(** ** The loader *)

Lemma set_delivery_days_twice d d' o :
  set_delivery_days d (set_delivery_days d' o) = set_delivery_days d o.
Proof. reflexivity. Qed.

Lemma load_rows f :
  rows (load_data_from_parquet (Some f))
  = map (fun o => set_delivery_days
                    (dt_days (datetime_sub (order_delivered_customer_date o)
                                           (order_purchase_timestamp o))) o)
        (filter (fun o => notna (order_delivered_customer_date o)) (rows f)).
Proof. reflexivity. Qed.

(** The loaded frame holds the delivered orders of the file and nothing
    else: every loaded row has a delivery timestamp, the rows are the file's
    delivered rows in file order, and only [delivery_days] differs from the
    file. *)
Theorem loaded_rows_are_the_delivered_rows f :
  let df := load_data_from_parquet (Some f) in
  let delivered := filter (fun o => notna (order_delivered_customer_date o)) (rows f) in
  Forall (fun o => order_delivered_customer_date o <> NaT) (rows df)
  /\ map (set_delivery_days NaN) (rows df) = map (set_delivery_days NaN) delivered
  /\ map order_id (rows df) = map order_id delivered
  /\ has_customer_state df = has_customer_state f
  /\ (length (rows df) <= length (rows f))%nat.
Proof.
  cbv zeta. rewrite load_rows. repeat split.
  - apply Forall_forall. intros o' Ho'. apply in_map_iff in Ho'.
    destruct Ho' as (o & <- & Ho). apply filter_In in Ho. simpl.
    destruct (order_delivered_customer_date o); [discriminate|].
    destruct Ho as [_ Ho]. discriminate Ho.
  - rewrite map_map. apply map_ext. intros o. apply set_delivery_days_twice.
  - rewrite map_map. reflexivity.
  - rewrite length_map. apply filter_length_le.
Qed.

(** [delivery_days] of a loaded order is the number of whole days from
    purchase to delivery, rounded down (so a delivery stamped before the
    purchase counts a negative number of days), and is missing exactly when
    the purchase timestamp is. *)
Theorem delivery_days_whole_days parquet o :
  In o (rows (load_data_from_parquet parquet)) ->
  exists d,
    order_delivered_customer_date o = Some d
    /\ match order_purchase_timestamp o with
       | Some p =>
           exists k, delivery_days o = Some (inject_Z k)
                     /\ (86400 * k <= d - p < 86400 * (k + 1))%Z
       | None => delivery_days o = NaN
       end.
Proof.
  destruct parquet as [f|]; [|intros []].
  rewrite load_rows, in_map_iff. intros (o0 & <- & Ho0).
  apply filter_In in Ho0. destruct Ho0 as [_ Hd].
  cbn [set_delivery_days order_delivered_customer_date order_purchase_timestamp
       delivery_days].
  destruct (order_delivered_customer_date o0) as [d|]; [|discriminate Hd].
  exists d. split; [reflexivity|].
  destruct (order_purchase_timestamp o0) as [p|]; [|reflexivity].
  exists ((d - p) / 86400)%Z. split; [reflexivity|].
  Z.div_mod_to_equations. lia.
Qed.

Lemma delivery_days_whole_days_witness :
  exists o,
    In o (rows (load_data_from_parquet (Some clock_skew_sample)))
    /\ delivery_days o = Some (inject_Z (-1)).
Proof.
  exists (set_delivery_days (num (-1)) (file_row "e" "SP" 1517443200 1517443199 10)).
  assert (Hin : In (set_delivery_days (num (-1))
                      (file_row "e" "SP" 1517443200 1517443199 10))
                   (rows (load_data_from_parquet (Some clock_skew_sample))))
    by (left; reflexivity).
  split; [exact Hin|].
  destruct (delivery_days_whole_days _ _ Hin) as (d & Hd & k & Hk & Hr).
  reflexivity.
Defined.

(** [main] stops at its "no data" warning exactly when the file could not be
    read or none of its orders has been delivered. *)
Theorem main_early_return parquet selected_state :
  main parquet selected_state = None
  <-> parquet = None
      \/ exists f, parquet = Some f
                   /\ forall o, In o (rows f) -> order_delivered_customer_date o = NaT.
Proof.
  rewrite main_None_iff. destruct parquet as [f|].
  - rewrite load_rows. split.
    + intros E. right. exists f. split; [reflexivity|].
      apply map_eq_nil in E. intros o Ho.
      pose proof (proj2 (filter_none _ _) E o Ho) as Hn.
      simpl in Hn.
      destruct (order_delivered_customer_date o); [discriminate Hn | reflexivity].
    + intros [[=]|(f' & [= <-] & Hall)].
      replace (filter _ (rows f)) with (@nil Order); [reflexivity|].
      symmetry. apply filter_none. intros o Ho. now rewrite (Hall o Ho).
  - split; [now left | reflexivity].
Qed.

(** ** The state filter *)

Lemma select_plot_df_rows df sel :
  has_customer_state df = true -> sel <> [] ->
  rows (select_plot_df df sel)
  = filter (fun o => existsb (option_string_eqb (customer_state o)) sel) (rows df).
Proof.
  intros Hc Hs. unfold select_plot_df. rewrite Hc.
  destruct sel as [|s sel]; [congruence|].
  unfold isin, column. simpl rows. rewrite map_map. apply getitem_mask_map.
Qed.

(** With a state column and a selection, the page works on exactly the
    loaded orders whose state is selected, in their loaded order. *)
Theorem filter_keeps_selected_states df selected_state o :
  has_customer_state df = true ->
  selected_state <> [] ->
  (In o (rows (select_plot_df df selected_state))
   <-> In o (rows df) /\ In (customer_state o) selected_state)
  /\ rows (select_plot_df df selected_state)
     = filter (fun o => existsb (option_string_eqb (customer_state o)) selected_state)
              (rows df).
Proof.
  intros Hc Hs. rewrite (select_plot_df_rows df selected_state Hc Hs).
  split; [|reflexivity].
  rewrite filter_In, (existsb_eqb_In _ option_string_eqb_eq). tauto.
Qed.

Lemma filter_keeps_selected_states_witness :
  map order_id (rows (select_plot_df (load_data_from_parquet (Some olist_sample))
                                     [Some "RJ"%string]))
  = ["c"%string; "d"%string].
Proof.
  rewrite (proj2 (filter_keeps_selected_states
                    (load_data_from_parquet (Some olist_sample))
                    [Some "RJ"%string]
                    (file_row "a" "SP" 0 0 0) eq_refl ltac:(discriminate))).
  reflexivity.
Defined.

Lemma selection_nonempty df selected_state s :
  In s selected_state ->
  In s (state_options df) ->
  rows (select_plot_df df selected_state) <> [].
Proof.
  intros Hs Ho. unfold state_options in Ho.
  apply (proj1 (unique_In _ option_string_eqb_eq _ _)) in Ho.
  unfold column in Ho. apply in_map_iff in Ho. destruct Ho as (o & <- & Ho).
  destruct (has_customer_state df) eqn:Hc.
  - rewrite select_plot_df_rows; [|exact Hc|intros ->; contradiction].
    intros E.
    pose proof (proj2 (filter_none _ _) E o Ho) as Hn. simpl in Hn.
    rewrite (proj2 (existsb_eqb_In _ option_string_eqb_eq _ _) Hs) in Hn.
    discriminate.
  - unfold select_plot_df. rewrite Hc. intros E. now rewrite E in Ho.
Qed.

(** A selection that shares a state with the widget's options never empties
    the page. *)
Theorem selection_from_options_nonempty df selected_state s :
  In s selected_state ->
  In s (state_options df) ->
  rows (select_plot_df df selected_state) <> [].
Proof. exact (selection_nonempty df selected_state s). Qed.

Lemma selection_from_options_nonempty_witness :
  rows (select_plot_df (load_data_from_parquet (Some olist_sample))
                       [Some "RJ"%string; Some "MG"%string]) <> [].
Proof.
  apply (selection_from_options_nonempty
           (load_data_from_parquet (Some olist_sample))
           [Some "RJ"%string; Some "MG"%string] (Some "RJ"%string)).
  - left. reflexivity.
  - right. left. reflexivity.
Defined.

Lemma firstn_short {A} n (l : list A) : (length l <= n)%nat -> firstn n l = l.
Proof. apply firstn_all2. Qed.

(** A selection that contains every option shows the whole loaded frame; so
    does the default selection when the frame has at most five distinct
    states. *)
Theorem selecting_every_state df selected_state :
  incl (state_options df) selected_state ->
  select_plot_df df selected_state = df
  /\ ((length (state_options df) <= 5)%nat ->
      select_plot_df df (default_options df) = df).
Proof.
  assert (Hall : forall sel, incl (state_options df) sel -> select_plot_df df sel = df).
  { intros sel Hin. unfold select_plot_df.
    destruct (has_customer_state df); [|reflexivity].
    destruct sel as [|s sel]; [reflexivity|].
    unfold isin, column. rewrite map_map, getitem_mask_map, filter_all.
    - apply with_rows_same.
    - intros o Ho. apply (proj2 (existsb_eqb_In _ option_string_eqb_eq _ _)).
      apply Hin. unfold state_options.
      apply (proj2 (unique_In _ option_string_eqb_eq _ _)).
      unfold column. now apply in_map. }
  intros Hin. split; [now apply Hall|].
  intros Hlen. apply Hall. unfold default_options.
  destruct (state_options df) as [|s l] eqn:E; [intros x []|].
  rewrite firstn_short by exact Hlen. apply incl_refl.
Qed.

Lemma selecting_every_state_witness :
  select_plot_df (load_data_from_parquet (Some olist_sample))
                 [Some "RJ"%string; Some "SP"%string]
  = load_data_from_parquet (Some olist_sample).
Proof.
  refine (proj1 (selecting_every_state
                   (load_data_from_parquet (Some olist_sample))
                   [Some "RJ"%string; Some "SP"%string] _)).
  intros s Hs. vm_compute in Hs. destruct Hs as [<-|[<-|[]]]; simpl; tauto.
Defined.

(** ** Counters against segments *)

Lemma gt_le_excl x y : gt x y = true -> le x y = false.
Proof.
  destruct x as [a|], y as [b|]; simpl; try discriminate.
  unfold Qlt_bool. now rewrite negb_true_iff.
Qed.

Lemma not_gt_le x y a b : x = Some a -> y = Some b -> gt x y = false -> le x y = true.
Proof.
  intros -> ->. simpl. unfold Qlt_bool. now rewrite negb_false_iff.
Qed.

Lemma filter_length_disjoint {A} (p q : A -> bool) l :
  (forall x, p x = true -> q x = false) ->
  (length (filter p l) + length (filter q l) <= length l)%nat.
Proof.
  intros H. induction l as [|x l IH]; simpl; [lia|].
  destruct (p x) eqn:E.
  - rewrite (H x E). simpl. lia.
  - destruct (q x); simpl; lia.
Qed.

Lemma filter_length_mono {A} (p q : A -> bool) l :
  (forall x, In x l -> p x = true -> q x = true) ->
  (length (filter p l) <= length (filter q l))%nat.
Proof.
  induction l as [|x l IH]; intros H; simpl; [lia|].
  assert (IH' := IH (fun y Hy => H y (or_intror Hy))).
  destruct (p x) eqn:E.
  - rewrite (H x (or_introl eq_refl) E). simpl. lia.
  - destruct (q x); simpl; lia.
Qed.

Lemma filter_length_lt {A} (p : A -> bool) l x :
  In x l -> p x = false -> (length (filter p l) < length l)%nat.
Proof.
  induction l as [|y l IH]; simpl; [tauto|].
  intros [->|Hin] E.
  - rewrite E. pose proof (filter_length_le p l). lia.
  - specialize (IH Hin E). destruct (p y); simpl; lia.
Qed.

Lemma filter_map_length {A B} (f : A -> B) (p : B -> bool) l :
  length (filter p (map f l)) = length (filter (fun x => p (f x)) l).
Proof.
  induction l as [|x l IH]; simpl; [reflexivity|].
  destruct (p (f x)); simpl; now rewrite IH.
Qed.

(** No order is counted by both cards: the at-risk and the worst-case
    counters together never exceed the number of orders shown. *)
Theorem risk_counters_disjoint plot_df th :
  (at_risk_cnt plot_df th + worst_case_cnt plot_df th <= total_orders plot_df)%nat
  /\ forall o, at_risk_bandb th o = true -> worst_case_bandb th o = false.
Proof.
  assert (H : forall o, at_risk_bandb th o = true -> worst_case_bandb th o = false).
  { intros o. unfold at_risk_bandb, worst_case_bandb.
    destruct (gt (delivery_days o) (d_limit th)) eqn:Ed; [|reflexivity].
    destruct (gt (freight_value o) (f_limit th)) eqn:Ef; [|reflexivity].
    rewrite (gt_le_excl _ _ Ed), (gt_le_excl _ _ Ef), !andb_false_r.
    discriminate. }
  split; [|exact H].
  rewrite at_risk_cnt_rows, worst_case_cnt_rows. unfold total_orders.
  now apply filter_length_disjoint.
Qed.

(** The worst-case card and the Segment column agree: the counter is the
    number of rows labelled Worst Case. *)
Theorem worst_case_cnt_counts_segment plot_df th :
  worst_case_cnt plot_df th
  = length (filter (Segment_eqb Worst_Case) (assign_segments plot_df th)).
Proof.
  rewrite worst_case_cnt_rows, assign_segments_rows, filter_map_length.
  f_equal. apply filter_ext. intros o.
  unfold worst_case_bandb, classify.
  destruct (gt (delivery_days o) (d_limit th)),
    (gt (freight_value o) (f_limit th)),
    (gt (delivery_days o) (d_warning th) || gt (freight_value o) (f_warning th));
    reflexivity.
Qed.

Lemma warning_defined_limit_defined df fld w :
  field_warning fld (calculate_dynamic_thresholds df) = Some w ->
  exists l, field_limit fld (calculate_dynamic_thresholds df) = Some l.
Proof.
  destruct (field_thresholds fld df) as [-> ->]. unfold fence_warning.
  destruct (fence (field_column fld df)) as [l|]; [now exists l | discriminate].
Qed.

Lemma at_risk_segment_in_band_gen th o :
  (forall w, d_warning th = Some w -> exists l, d_limit th = Some l) ->
  (forall w, f_warning th = Some w -> exists l, f_limit th = Some l) ->
  classify o th = At_Risk -> at_risk_bandb th o = true.
Proof.
  intros Hd Hf. unfold classify, at_risk_bandb.
  destruct (gt (delivery_days o) (d_limit th)) eqn:Edl;
    [destruct (gt (freight_value o) (f_limit th)); discriminate|].
  destruct (gt (freight_value o) (f_limit th)) eqn:Efl; [discriminate|].
  rewrite andb_false_l.
  destruct (gt (delivery_days o) (d_warning th)) eqn:Edw.
  - intros _. apply orb_true_iff. left. rewrite andb_true_l.
    destruct (delivery_days o) as [v|] eqn:Ev; [|discriminate Edw].
    destruct (d_warning th) as [w|] eqn:Ew; [|discriminate Edw].
    destruct (Hd w eq_refl) as (l & El).
    exact (not_gt_le _ _ v l eq_refl El Edl).
  - rewrite orb_false_l, andb_false_l, orb_false_l.
    destruct (gt (freight_value o) (f_warning th)) eqn:Efw; [|discriminate].
    intros _. rewrite andb_true_l.
    destruct (freight_value o) as [v|] eqn:Ev; [|discriminate Efw].
    destruct (f_warning th) as [w|] eqn:Ew; [|discriminate Efw].
    destruct (Hf w eq_refl) as (l & El).
    exact (not_gt_le _ _ v l eq_refl El Efl).
Qed.

Lemma at_risk_segment_in_band df o :
  classify o (calculate_dynamic_thresholds df) = At_Risk ->
  at_risk_bandb (calculate_dynamic_thresholds df) o = true.
Proof.
  apply at_risk_segment_in_band_gen.
  - intros w. apply (warning_defined_limit_defined df Delivery).
  - intros w. apply (warning_defined_limit_defined df Freight).
Qed.

Lemma thresholds_from_loaded_frame_parts parquet selected_state dash :
  main parquet selected_state = Some dash ->
  let df := load_data_from_parquet parquet in
  let plot_df := select_plot_df df selected_state in
  let th := calculate_dynamic_thresholds df in
  shown_at_risk_cnt dash = at_risk_cnt plot_df th
  /\ shown_Segment dash = assign_segments plot_df th.
Proof.
  unfold main. destruct (empty (load_data_from_parquet parquet)); [discriminate|].
  intros [= <-]. split; reflexivity.
Qed.

(** On the page, every order labelled At-Risk lies in the at-risk band the
    card counts, so the card shows at least as many orders as the At-Risk
    segment holds. *)
Theorem at_risk_segment_within_counter parquet selected_state dash :
  main parquet selected_state = Some dash ->
  let df := load_data_from_parquet parquet in
  let plot_df := select_plot_df df selected_state in
  let th := calculate_dynamic_thresholds df in
  (forall i o,
      nth_error (rows plot_df) i = Some o ->
      nth_error (shown_Segment dash) i = Some At_Risk ->
      at_risk_band th o)
  /\ (length (filter (Segment_eqb At_Risk) (shown_Segment dash))
      <= shown_at_risk_cnt dash)%nat.
Proof.
  intros Hm.
  destruct (thresholds_from_loaded_frame_parts parquet selected_state dash Hm)
    as (Hc & Hs).
  cbv zeta. split.
  - intros i o Ho Hseg. rewrite Hs in Hseg.
    rewrite (nth_error_assign_segments _ _ i o Ho) in Hseg.
    apply Some_eq in Hseg.
    apply at_risk_bandb_spec. now apply at_risk_segment_in_band.
  - rewrite Hc, Hs, at_risk_cnt_rows, assign_segments_rows, filter_map_length.
    apply filter_length_mono. intros o _ E.
    apply at_risk_segment_in_band.
    destruct (classify o _); try discriminate E. reflexivity.
Qed.

Lemma at_risk_segment_within_counter_witness :
  exists dash o,
    main (Some even_sample) [] = Some dash
    /\ shown_Segment dash = [At_Risk; At_Risk]
    /\ nth_error (rows (load_data_from_parquet (Some even_sample))) 0 = Some o
    /\ at_risk_band (calculate_dynamic_thresholds
                       (load_data_from_parquet (Some even_sample))) o
    /\ (2 <= shown_at_risk_cnt dash)%nat.
Proof.
  eexists. eexists. split; [reflexivity|].
  split; [reflexivity|]. split; [reflexivity|].
  destruct (at_risk_segment_within_counter (Some even_sample) [] _ eq_refl)
    as [Hband Hcnt].
  split; [exact (Hband 0%nat _ eq_refl eq_refl) | exact Hcnt].
Defined.

Lemma assign_segments_priority plot_df th :
  assign_segments plot_df th
  = map (fun o => segment_by_priority o th) (rows plot_df).
Proof.
  rewrite assign_segments_rows. apply map_ext. intros o.
  unfold classify, segment_by_priority.
  destruct (gt (delivery_days o) (d_limit th)),
    (gt (freight_value o) (f_limit th)),
    (gt (delivery_days o) (d_warning th)),
    (gt (freight_value o) (f_warning th)); reflexivity.
Qed.

(** The sequence of overwrites is a priority list: Worst Case beats Delayed,
    Delayed beats High Freight, High Freight beats At-Risk, At-Risk beats
    Normal, and every row gets exactly one of the five. *)
Theorem segments_by_priority plot_df th :
  assign_segments plot_df th
  = map (fun o => segment_by_priority o th) (rows plot_df).
Proof. exact (assign_segments_priority plot_df th). Qed.

(** ** Quartiles and the range of the data *)

Lemma least_value (l : list Q) :
  l <> [] -> exists m, In m l /\ forall x, In x l -> m <= x.
Proof.
  induction l as [|a l IH]; [congruence|]. intros _.
  destruct l as [|b l].
  - exists a. split; [now left|]. intros x [<-|[]]. apply Qle_refl.
  - destruct IH as (m & Hm & Hle); [discriminate|].
    destruct (Qlt_le_dec a m) as [Hlt|Hge].
    + exists a. split; [now left|]. intros x [<-|Hx]; [apply Qle_refl|].
      apply Qle_trans with m; [now apply Qlt_le_weak | now apply Hle].
    + exists m. split; [now right|]. intros x [<-|Hx]; [exact Hge | now apply Hle].
Qed.

Lemma greatest_value (l : list Q) :
  l <> [] -> exists m, In m l /\ forall x, In x l -> x <= m.
Proof.
  induction l as [|a l IH]; [congruence|]. intros _.
  destruct l as [|b l].
  - exists a. split; [now left|]. intros x [<-|[]]. apply Qle_refl.
  - destruct IH as (m & Hm & Hle); [discriminate|].
    destruct (Qlt_le_dec m a) as [Hlt|Hge].
    + exists a. split; [now left|]. intros x [<-|Hx]; [apply Qle_refl|].
      apply Qle_trans with m; [now apply Hle | now apply Qlt_le_weak].
    + exists m. split; [now right|]. intros x [<-|Hx]; [exact Hge | now apply Hle].
Qed.

Lemma percentile_linear_upper_bound xs q c r :
  StronglySorted Qle xs -> Forall (fun x => x <= c) xs ->
  0 <= q -> q <= 1 ->
  percentile_linear xs q = Some r -> r <= c.
Proof.
  intros Hs Hc H0 H1. destruct xs as [|v0 t]; [discriminate|].
  rewrite percentile_linear_cons. intros <-%Some_eq.
  set (xs := v0 :: t) in *. set (n := length xs).
  assert (Hn : (0 < n)%nat) by (unfold n; simpl; lia).
  pose proof (previous_index_in_range n q Hn H0 H1) as Hp.
  destruct (next_index_in_range n q Hn H0 H1) as [Hnx Hnx'].
  destruct (weight_bounds n q) as [Hw Hw'].
  apply Qle_trans with (nth (next_index n q) xs v0).
  - apply lerp_between; auto.
    apply nth_sorted_le; [exact Hs|exact Hnx|fold n; lia].
  - rewrite Forall_forall in Hc. apply Hc, nth_In. fold n. lia.
Qed.

Lemma quantile_upper_bound s q c r :
  (forall x, In x (dropna_values s) -> x <= c) ->
  0 <= q -> q <= 1 -> quantile s q = Some r -> r <= c.
Proof.
  intros Hc H0 H1. unfold quantile.
  apply percentile_linear_upper_bound; auto.
  - apply sort_values_Qle.
  - apply sort_values_Forall. now apply Forall_forall.
Qed.

Lemma quartiles_range df fld :
  has_value (field_column fld df) ->
  exists lo hi q1 q3 l,
    In (Some lo) (field_column fld df) /\ In (Some hi) (field_column fld df)
    /\ (forall x, In (Some x) (field_column fld df) -> lo <= x /\ x <= hi)
    /\ quantile (field_column fld df) 0.25 = Some q1
    /\ quantile (field_column fld df) 0.75 = Some q3
    /\ lo <= q1 /\ q1 <= q3 /\ q3 <= hi
    /\ field_limit fld (calculate_dynamic_thresholds df) = Some l
    /\ q3 <= l /\ l <= hi + 1.5 * (hi - lo).
Proof.
  intros Hs. set (s := field_column fld df) in *.
  destruct (least_value _ Hs) as (lo & Hlo & Hlo').
  destruct (greatest_value _ Hs) as (hi & Hhi & Hhi').
  destruct (quartiles_ordered s Hs) as (q1 & q3 & E1 & E3 & Hle).
  destruct (fence_value s q1 q3 E1 E3) as [El _].
  assert (lo <= q1) by (apply (quantile_lower_bound s 0.25); auto; lra).
  assert (q3 <= hi) by (apply (quantile_upper_bound s 0.75); auto; lra).
  exists lo, hi, q1, q3, (q3 + 1.5 * (q3 - q1)).
  repeat split; auto; try (now apply dropna_values_In).
  - apply Hlo'. now apply dropna_values_In.
  - apply Hhi'. now apply dropna_values_In.
  - destruct (field_thresholds fld df) as [-> _]. exact El.
  - lra.
  - lra.
Qed.

(** On a column with a value, the quartiles are numbers between the smallest
    and the largest value of the column, Q1 is at most Q3, and the limit is at
    most the largest value plus one and a half times the range. *)
Theorem quartiles_within_range df fld :
  has_value (field_column fld df) ->
  exists lo hi q1 q3 l,
    In (Some lo) (field_column fld df) /\ In (Some hi) (field_column fld df)
    /\ (forall x, In (Some x) (field_column fld df) -> lo <= x /\ x <= hi)
    /\ quantile (field_column fld df) 0.25 = Some q1
    /\ quantile (field_column fld df) 0.75 = Some q3
    /\ lo <= q1 /\ q1 <= q3 /\ q3 <= hi
    /\ field_limit fld (calculate_dynamic_thresholds df) = Some l
    /\ q3 <= l /\ l <= hi + 1.5 * (hi - lo).
Proof. exact (quartiles_range df fld). Qed.

Lemma quartiles_within_range_witness :
  exists lo hi q1 q3 : Q,
    quantile (column freight_value spec_sample) 0.25 = Some q1
    /\ quantile (column freight_value spec_sample) 0.75 = Some q3
    /\ In (Some lo) (column freight_value spec_sample)
    /\ In (Some hi) (column freight_value spec_sample)
    /\ lo <= q1 /\ q1 <= q3 /\ q3 <= hi.
Proof.
  destruct (quartiles_within_range spec_sample Freight)
    as (lo & hi & q1 & q3 & l & H1 & H2 & _ & E1 & E3 & Ha & Hb & Hc & _).
  - vm_compute. discriminate.
  - exists lo, hi, q1, q3. repeat split; assumption.
Defined.

(** Without a state filter the worst-case card never counts every order:
    the order with the cheapest freight is not beyond the freight limit. *)
Theorem worst_case_never_all df :
  rows df <> [] ->
  (worst_case_cnt df (calculate_dynamic_thresholds df) < total_orders df)%nat.
Proof.
  intros Hne. rewrite worst_case_cnt_rows. unfold total_orders.
  set (th := calculate_dynamic_thresholds df).
  destruct (dropna_values (column freight_value df)) as [|v vs] eqn:Ev.
  - destruct (rows df) as [|o l] eqn:Er; [congruence|].
    apply (filter_length_lt _ _ o); [now left|].
    unfold worst_case_bandb.
    assert (En : f_limit th = NaN).
    { destruct (field_thresholds Freight df) as [E _]. simpl in E.
      unfold th. rewrite E. apply fence_NaN_iff. intros H. apply H, Ev. }
    rewrite En. destruct (freight_value o); simpl; apply andb_false_r.
  - assert (Hs : has_value (field_column Freight df)).
    { unfold has_value. simpl. rewrite Ev. discriminate. }
    destruct (quartiles_range df Freight Hs)
      as (lo & hi & q1 & q3 & l & Hlo & _ & _ & _ & _ & Hq1 & Hq13 & _ & El & Hl & _).
    simpl in Hlo, El. unfold column in Hlo. apply in_map_iff in Hlo.
    destruct Hlo as (o & Ho & Hin).
    apply (filter_length_lt _ _ o Hin).
    unfold worst_case_bandb. fold th in El. rewrite El, Ho.
    assert (Hle : lo <= l) by lra.
    simpl. unfold Qlt_bool.
    rewrite (proj2 (Qle_bool_iff lo l) Hle). apply andb_false_r.
Qed.

Lemma worst_case_never_all_witness :
  (worst_case_cnt spec_sample (calculate_dynamic_thresholds spec_sample)
   < total_orders spec_sample)%nat.
Proof. apply (worst_case_never_all spec_sample). discriminate. Defined.

(** ** Thresholds and the order of the rows *)

Lemma count_le_perm l m v : Permutation l m -> count_le l v = count_le m v.
Proof.
  unfold count_le. induction 1 as [|x l m _ IH|x y l|l m n _ IH1 _ IH2]; simpl.
  - reflexivity.
  - destruct (Qle_bool x v); simpl; now rewrite IH.
  - destruct (Qle_bool x v), (Qle_bool y v); reflexivity.
  - now rewrite IH1.
Qed.

Lemma count_le_above l v :
  Forall (fun x => ~ x <= v) l -> count_le l v = 0%nat.
Proof.
  unfold count_le. induction 1 as [|x l Hx _ IH]; simpl; [reflexivity|].
  destruct (Qle_bool x v) eqn:E; [|exact IH].
  apply Qle_bool_iff in E. contradiction.
Qed.

Lemma nth_lt_count_le l d i :
  StronglySorted Qle l -> (i < length l)%nat -> (i < count_le l (nth i l d))%nat.
Proof.
  intros Hs. revert i. induction Hs as [|x l Hl IH Hx]; intros i Hi; simpl in Hi.
  - lia.
  - unfold count_le. destruct i as [|i]; simpl.
    + rewrite (proj2 (Qle_bool_iff x x) (Qle_refl x)). simpl. lia.
    + assert (Hle : x <= nth i l d).
      { rewrite Forall_forall in Hx. apply Hx, nth_In. lia. }
      rewrite (proj2 (Qle_bool_iff _ _) Hle). simpl.
      specialize (IH i ltac:(lia)). unfold count_le in IH. lia.
Qed.

Lemma count_le_nth l d i v :
  StronglySorted Qle l -> (i < count_le l v)%nat -> nth i l d <= v.
Proof.
  intros Hs. revert i. induction Hs as [|x l Hl IH Hx]; intros i Hi.
  - unfold count_le in Hi. simpl in Hi. lia.
  - destruct (Qle_bool x v) eqn:E.
    + destruct i as [|i]; simpl; [now apply Qle_bool_iff|].
      apply IH. unfold count_le in *. simpl in Hi. rewrite E in Hi.
      simpl in Hi. lia.
    + exfalso.
      assert (Hx' : ~ x <= v) by (rewrite <- Qle_bool_iff; congruence).
      rewrite count_le_above in Hi; [lia|].
      constructor; [exact Hx'|].
      eapply Forall_impl; [|exact Hx]. intros y Hy Hyv.
      apply Hx'. now apply Qle_trans with y.
Qed.

(** Two sorted lists with the same entries agree position by position. *)
Lemma sorted_perm_nth l m d d' i :
  StronglySorted Qle l -> StronglySorted Qle m -> Permutation l m ->
  (i < length l)%nat -> nth i l d == nth i m d'.
Proof.
  intros Hl Hm Hp Hi.
  assert (Hi' : (i < length m)%nat) by now rewrite <- (Permutation_length Hp).
  apply Qle_antisym.
  - apply count_le_nth; [exact Hl|].
    rewrite (count_le_perm _ _ _ Hp). now apply nth_lt_count_le.
  - apply count_le_nth; [exact Hm|].
    rewrite <- (count_le_perm _ _ _ Hp). now apply nth_lt_count_le.
Qed.

Lemma lerp_Qeq a a' b b' t : a == a' -> b == b' -> lerp a b t == lerp a' b' t.
Proof. unfold lerp. intros -> ->. reflexivity. Qed.

Lemma percentile_linear_perm xs ys q :
  StronglySorted Qle xs -> StronglySorted Qle ys -> Permutation xs ys ->
  0 <= q -> q <= 1 ->
  feq (percentile_linear xs q) (percentile_linear ys q).
Proof.
  intros Hx Hy Hp H0 H1.
  pose proof (Permutation_length Hp) as Hlen.
  destruct xs as [|x0 xt], ys as [|y0 yt]; try discriminate Hlen; [exact I|].
  rewrite !percentile_linear_cons. rewrite <- Hlen.
  set (xs := x0 :: xt) in *. set (ys := y0 :: yt) in *. set (n := length xs).
  assert (Hn : (0 < n)%nat) by (unfold n; simpl; lia).
  pose proof (previous_index_in_range n q Hn H0 H1) as Hpi.
  destruct (next_index_in_range n q Hn H0 H1) as [_ Hni].
  unfold feq.
  apply lerp_Qeq; apply sorted_perm_nth; auto; fold n; lia.
Qed.

Lemma dropna_values_perm {A} (s s' : list (option A)) :
  Permutation s s' -> Permutation (dropna_values s) (dropna_values s').
Proof.
  induction 1 as [|[a|] l m _ IH|[a|] [b|] l|l m n _ IH1 _ IH2]; simpl;
    try reflexivity; auto.
  - apply perm_swap.
  - now rewrite IH1.
Qed.

Lemma quantile_perm s s' q :
  Permutation s s' -> 0 <= q -> q <= 1 -> feq (quantile s q) (quantile s' q).
Proof.
  intros Hp H0 H1. unfold quantile.
  apply percentile_linear_perm; auto; try apply sort_values_Qle.
  rewrite <- !sort_values_perm. now apply dropna_values_perm.
Qed.

Lemma feq_lift2 f x x' y y' :
  (forall a a' b b', a == a' -> b == b' -> f a b == f a' b') ->
  feq x x' -> feq y y' -> feq (lift2 f x y) (lift2 f x' y').
Proof.
  intros Hf. destruct x, x', y, y'; simpl; try tauto. apply Hf.
Qed.

Lemma feq_refl x : feq x x.
Proof. destruct x; simpl; [reflexivity | exact I]. Qed.

Lemma fence_perm s s' :
  Permutation s s' ->
  feq (fence s) (fence s') /\ feq (fence_warning s) (fence_warning s').
Proof.
  intros Hp.
  assert (H1 : feq (quantile s 0.25) (quantile s' 0.25))
    by (apply quantile_perm; auto; lra).
  assert (H3 : feq (quantile s 0.75) (quantile s' 0.75))
    by (apply quantile_perm; auto; lra).
  assert (Hf : feq (fence s) (fence s')).
  { unfold fence, add, mul, sub.
    apply feq_lift2; [intros; now apply Qplus_comp | exact H3 |].
    apply feq_lift2; [intros; now apply Qmult_comp | apply feq_refl |].
    apply feq_lift2; [|exact H3|exact H1].
    intros a a' b b' Ha Hb. unfold Qminus. rewrite Ha, Hb. reflexivity. }
  split; [exact Hf|].
  unfold fence_warning, mul.
  apply feq_lift2; [intros; now apply Qmult_comp | exact Hf | apply feq_refl].
Qed.

(** The thresholds do not depend on the order of the rows: two frames with
    the same rows in another order get the same four numbers. *)
Theorem thresholds_ignore_row_order df df' :
  Permutation (rows df) (rows df') ->
  thresholds_eq (calculate_dynamic_thresholds df) (calculate_dynamic_thresholds df').
Proof.
  intros Hp.
  destruct (fence_perm (column freight_value df) (column freight_value df'))
    as [Hfl Hfw]; [now apply Permutation_map|].
  destruct (fence_perm (column delivery_days df) (column delivery_days df'))
    as [Hdl Hdw]; [now apply Permutation_map|].
  repeat split; assumption.
Qed.

Lemma thresholds_ignore_row_order_witness :
  thresholds_eq (calculate_dynamic_thresholds spec_sample)
                (calculate_dynamic_thresholds (frame_of (rev (rows spec_sample)))).
Proof.
  apply (thresholds_ignore_row_order spec_sample (frame_of (rev (rows spec_sample)))).
  apply Permutation_rev.
Defined.

(** ** Sorting by a total preorder *)

Section SortedBy.
Context {A : Type} (leb : A -> A -> bool).
Hypothesis leb_total : forall x y, leb x y = true \/ leb y x = true.
Hypothesis leb_trans :
  forall x y z, leb x y = true -> leb y z = true -> leb x z = true.

Lemma insert_sorted_sorted x l :
  StronglySorted (fun a b => leb a b = true) l ->
  StronglySorted (fun a b => leb a b = true) (insert_sorted leb x l).
Proof.
  induction 1 as [|y l Hl IH Hy]; simpl.
  - repeat constructor.
  - destruct (leb x y) eqn:E.
    + constructor; [now constructor|]. constructor; [exact E|].
      eapply Forall_impl; [|exact Hy]. intros z Hz. now apply leb_trans with y.
    + constructor; [exact IH|].
      rewrite <- insert_sorted_perm. constructor; [|exact Hy].
      destruct (leb_total x y) as [H|H]; [congruence | exact H].
Qed.

Lemma sort_values_sorted l :
  StronglySorted (fun a b => leb a b = true) (sort_values leb l).
Proof.
  induction l as [|x l IH]; simpl; [constructor|].
  now apply insert_sorted_sorted.
Qed.

End SortedBy.

Lemma StronglySorted_strict {A} (R S : A -> A -> Prop) l :
  (forall x y, R x y -> x <> y -> S x y) ->
  StronglySorted R l -> NoDup l -> StronglySorted S l.
Proof.
  intros H Hs. induction Hs as [|x l Hl IH Hx]; intros Hn; [constructor|].
  inversion Hn as [|? ? Hnx Hnl]; subst.
  constructor; [now apply IH|].
  rewrite Forall_forall in *. intros y Hy.
  apply H; [now apply Hx|]. intros ->. contradiction.
Qed.

Lemma StronglySorted_map {A B} (f : A -> B) (R : B -> B -> Prop) l :
  StronglySorted (fun a b => R (f a) (f b)) l -> StronglySorted R (map f l).
Proof.
  induction 1 as [|x l Hl IH Hx]; simpl; constructor; [exact IH|].
  apply Forall_map. exact Hx.
Qed.

(** ** The order of strings *)

Lemma ascii_compare_lt_trans a b c :
  Ascii.compare a b = Lt -> Ascii.compare b c = Lt -> Ascii.compare a c = Lt.
Proof.
  unfold Ascii.compare. rewrite !N.compare_lt_iff. apply N.lt_trans.
Qed.

Lemma string_compare_lt_trans s1 :
  forall s2 s3,
    String.compare s1 s2 = Lt -> String.compare s2 s3 = Lt ->
    String.compare s1 s3 = Lt.
Proof.
  induction s1 as [|a s1 IH]; intros [|b s2] [|c s3]; simpl; try discriminate;
    try reflexivity.
  destruct (Ascii.compare a b) eqn:Eab; try discriminate;
    destruct (Ascii.compare b c) eqn:Ebc; try discriminate; intros H12 H23.
  - apply Ascii.compare_eq_iff in Eab, Ebc. subst.
    assert (E : Ascii.compare c c = Eq).
    { unfold Ascii.compare. apply N.compare_refl. }
    rewrite E. now apply IH with s2.
  - apply Ascii.compare_eq_iff in Eab. subst. now rewrite Ebc.
  - apply Ascii.compare_eq_iff in Ebc. subst. now rewrite Eab.
  - now rewrite (ascii_compare_lt_trans a b c).
Qed.

Lemma string_leb_trans x y z :
  String.leb x y = true -> String.leb y z = true -> String.leb x z = true.
Proof.
  unfold String.leb.
  destruct (String.compare x y) eqn:Exy; try discriminate;
    destruct (String.compare y z) eqn:Eyz; try discriminate; intros _ _.
  - apply String.compare_eq_iff in Exy. subst. now rewrite Eyz.
  - apply String.compare_eq_iff in Exy. subst. now rewrite Eyz.
  - apply String.compare_eq_iff in Eyz. subst. now rewrite Exy.
  - now rewrite (string_compare_lt_trans x y z).
Qed.

Lemma string_leb_ltb x y : String.leb x y = true -> x <> y -> String.ltb x y = true.
Proof.
  unfold String.leb, String.ltb.
  destruct (String.compare x y) eqn:E; try discriminate; [|reflexivity].
  apply String.compare_eq_iff in E. congruence.
Qed.

Lemma sorted_distinct_strings l :
  StronglySorted (fun a b => String.ltb a b = true)
                 (sort_values String.leb (nodup string_dec l))
  /\ forall x, In x (sort_values String.leb (nodup string_dec l)) <-> In x l.
Proof.
  split.
  - apply (StronglySorted_strict (fun a b => String.leb a b = true)).
    + apply string_leb_ltb.
    + apply sort_values_sorted; [apply String.leb_total | apply string_leb_trans].
    + eapply Permutation_NoDup; [apply sort_values_perm | apply NoDup_nodup].
  - intros x. split; intros H.
    + apply (nodup_In string_dec).
      eapply Permutation_in; [symmetry; apply sort_values_perm | exact H].
    + eapply Permutation_in; [apply sort_values_perm|].
      now apply nodup_In.
Qed.

(** ** Means *)

Lemma sum_bounds lo hi vs :
  Forall (fun x => lo <= x /\ x <= hi) vs ->
  forall acc k,
    inject_Z (Z.of_nat k) * lo <= acc -> acc <= inject_Z (Z.of_nat k) * hi ->
    inject_Z (Z.of_nat (k + length vs)) * lo <= fold_left Qplus vs acc
    /\ fold_left Qplus vs acc <= inject_Z (Z.of_nat (k + length vs)) * hi.
Proof.
  induction 1 as [|x vs [Hx Hx'] _ IH]; intros acc k Hlo Hhi; simpl.
  - now rewrite Nat.add_0_r.
  - replace (k + S (length vs))%nat with (S k + length vs)%nat by lia.
    apply IH.
    + rewrite Nat2Z.inj_succ. unfold Z.succ. rewrite inject_Z_plus.
      change (inject_Z 1) with 1. lra.
    + rewrite Nat2Z.inj_succ. unfold Z.succ. rewrite inject_Z_plus.
      change (inject_Z 1) with 1. lra.
Qed.

Lemma mean_defined s : has_value s -> exists r, mean s = Some r.
Proof.
  unfold has_value, mean. destruct (dropna_values s); [congruence|].
  intros _. eexists. reflexivity.
Qed.

Lemma mean_bounds s lo hi r :
  (forall x, In x (dropna_values s) -> lo <= x /\ x <= hi) ->
  mean s = Some r -> lo <= r /\ r <= hi.
Proof.
  unfold mean. destruct (dropna_values s) as [|v vs]; [discriminate|].
  intros Hb <-%Some_eq.
  destruct (Hb v (or_introl eq_refl)) as [Hv Hv'].
  assert (Hvs : Forall (fun x => lo <= x /\ x <= hi) vs).
  { apply Forall_forall. intros x Hx. apply Hb. now right. }
  destruct (sum_bounds lo hi vs Hvs v 1%nat) as [Hs Hs'].
  { change (inject_Z (Z.of_nat 1)) with 1. lra. }
  { change (inject_Z (Z.of_nat 1)) with 1. lra. }
  assert (Hn : 0 < inject_Z (Z.of_nat (length (v :: vs)))).
  { change 0 with (inject_Z 0). rewrite <- Zlt_Qlt. simpl length. lia. }
  change (1 + length vs)%nat with (length (v :: vs)) in Hs, Hs'.
  split.
  - apply Qle_shift_div_l; [exact Hn|]. lra.
  - apply Qle_shift_div_r; [exact Hn|]. lra.
Qed.

(** ** The monthly lead-time table *)

Lemma op_df_row df r :
  In r (op_df df) ->
  exists o a c d,
    In o (rows df)
    /\ order_approved_at o = Some a
    /\ order_delivered_carrier_date o = Some c
    /\ order_delivered_customer_date o = Some d
    /\ month r = option_map strftime_Ym (order_purchase_timestamp o)
    /\ p_to_a r = option_map (fun p => inject_Z (a - p) / 86400)
                             (order_purchase_timestamp o)
    /\ a_to_c r = Some (inject_Z (c - a) / 86400)
    /\ c_to_d r = Some (inject_Z (d - c) / 86400).
Proof.
  unfold op_df. rewrite in_map_iff. intros (o & <- & Ho).
  apply filter_In in Ho. destruct Ho as [Ho Hp].
  cbn [op_order p_to_a a_to_c c_to_d month].
  destruct (order_approved_at o) as [a|] eqn:Ea; [|discriminate Hp].
  destruct (order_delivered_carrier_date o) as [c|] eqn:Ec;
    [|rewrite andb_false_r in Hp; discriminate Hp].
  destruct (order_delivered_customer_date o) as [d|] eqn:Ed;
    [|rewrite andb_false_r in Hp; discriminate Hp].
  exists o, a, c, d. repeat split; try assumption.
  now destruct (order_purchase_timestamp o).
Qed.

Lemma op_df_of_order df o p :
  In o (rows df) -> in_lead_time_table o p ->
  exists r, In r (op_df df) /\ month r = Some (strftime_Ym p).
Proof.
  intros Ho (Hp & Ha & Hc & Hd). eexists. split.
  - unfold op_df. apply in_map. apply filter_In. split; [exact Ho|].
    destruct (order_approved_at o); [|exfalso; apply Ha; reflexivity].
    destruct (order_delivered_carrier_date o); [|exfalso; apply Hc; reflexivity].
    destruct (order_delivered_customer_date o);
      [reflexivity | exfalso; apply Hd; reflexivity].
  - cbn [month]. now rewrite Hp.
Qed.

Lemma df_perf_months df :
  map fst (df_perf df)
  = sort_values String.leb
      (nodup string_dec (dropna_values (map month (op_df df)))).
Proof.
  unfold df_perf, groupby_month_mean. rewrite map_map. simpl. apply map_id.
Qed.

(** The rows of the lead-time table are in strictly ascending order of
    their month: no month appears twice. *)
Theorem monthly_table_months_ascending df :
  StronglySorted (fun a b => String.ltb a b = true) (map fst (df_perf df)).
Proof. rewrite df_perf_months. apply sorted_distinct_strings. Qed.

Lemma df_perf_month_iff df m :
  In m (map fst (df_perf df))
  <-> exists o p, In o (rows df) /\ in_lead_time_table o p /\ strftime_Ym p = m.
Proof.
  rewrite df_perf_months, (proj2 (sorted_distinct_strings _)), dropna_values_In,
    in_map_iff.
  split.
  - intros (r & Hm & Hr).
    destruct (op_df_row df r Hr) as (o & a & c & d & Ho & Ea & Ec & Ed & Em & _).
    rewrite Em in Hm.
    destruct (order_purchase_timestamp o) as [p|] eqn:Ep; [|discriminate Hm].
    exists o, p. unfold in_lead_time_table. rewrite Ea, Ec, Ed.
    repeat split; try discriminate; try assumption.
    simpl in Hm. congruence.
  - intros (o & p & Ho & Ht & <-).
    destruct (op_df_of_order df o p Ho Ht) as (r & Hr & Hm).
    now exists r.
Qed.

(** A month has a row in the lead-time table exactly when it is the purchase
    month of a loaded order that has all four timestamps. *)
Theorem monthly_table_months_complete df m :
  In m (map fst (df_perf df))
  <-> exists o p, In o (rows df) /\ in_lead_time_table o p /\ strftime_Ym p = m.
Proof. exact (df_perf_month_iff df m). Qed.

Lemma mean_of_values (vs : list Q) lo :
  vs <> [] -> (forall x, In x vs -> lo <= x) ->
  exists r, mean (map Some vs) = Some r /\ lo <= r.
Proof.
  intros Hne Hlo.
  assert (E : dropna_values (map Some vs) = vs).
  { clear. induction vs as [|v vs IH]; simpl; [reflexivity | now rewrite IH]. }
  destruct (mean_defined (map Some vs)) as (r & Hr).
  { unfold has_value. now rewrite E. }
  exists r. split; [exact Hr|].
  destruct (greatest_value vs Hne) as (hi & _ & Hhi).
  apply (mean_bounds (map Some vs) lo hi r); [|exact Hr].
  rewrite E. intros x Hx. split; [now apply Hlo | now apply Hhi].
Qed.

Lemma column_of_values {A} (f : A -> float) (g : A -> Q) l :
  (forall x, In x l -> f x = Some (g x)) -> map f l = map Some (map g l).
Proof.
  intros H. rewrite map_map. apply map_ext_in. exact H.
Qed.

Lemma stage_nonneg (a b : Z) : (b <= a)%Z -> 0 <= inject_Z (a - b) / 86400.
Proof.
  intros H. apply Qle_shift_div_l; [reflexivity|].
  ring_simplify. change 0 with (inject_Z 0). rewrite <- Zle_Qle. lia.
Qed.

(** Every bar of the lead-time table is a number, never NaN; when the
    timestamps of the loaded orders are in their natural order, none of the
    three stage means is negative. *)
Theorem monthly_means_defined df m a b c :
  In (m, (a, b, c)) (df_perf df) ->
  exists qa qb qc,
    a = Some qa /\ b = Some qb /\ c = Some qc
    /\ ((forall o, In o (rows df) -> timestamps_ordered o) ->
        0 <= qa /\ 0 <= qb /\ 0 <= qc).
Proof.
  intros Hin.
  assert (Hm : In m (map fst (df_perf df))) by (apply (in_map fst) in Hin; exact Hin).
  unfold df_perf, groupby_month_mean in Hin. apply in_map_iff in Hin.
  destruct Hin as (k & [= <- <- <- <-] & _).
  set (g := filter (fun r => option_string_eqb (month r) (Some k)) (op_df df)).
  assert (Hg : forall r, In r g ->
             exists o p a c d,
               In o (rows df)
               /\ order_purchase_timestamp o = Some p
               /\ order_approved_at o = Some a
               /\ order_delivered_carrier_date o = Some c
               /\ order_delivered_customer_date o = Some d
               /\ p_to_a r = Some (inject_Z (a - p) / 86400)
               /\ a_to_c r = Some (inject_Z (c - a) / 86400)
               /\ c_to_d r = Some (inject_Z (d - c) / 86400)).
  { intros r Hr. apply filter_In in Hr. destruct Hr as [Hr Hk].
    destruct (op_df_row df r Hr) as (o & a & c & d & Ho & Ea & Ec & Ed & Em & Epa & Eac & Ecd).
    rewrite Em in Hk.
    destruct (order_purchase_timestamp o) as [p|] eqn:Ep; [|discriminate Hk].
    exists o, p, a, c, d. repeat split; assumption. }
  assert (Hne : g <> []).
  { apply df_perf_month_iff in Hm.
    destruct Hm as (o & p & Ho & Ht & Ek).
    destruct (op_df_of_order df o p Ho Ht) as (r & Hr & Hmr).
    intros E. assert (Hr' : In r g).
    { apply filter_In. split; [exact Hr|]. rewrite Hmr, Ek.
      now apply option_string_eqb_eq. }
    rewrite E in Hr'. exact Hr'. }
  clearbody g.
  assert (Hcol : forall (f : OpRow -> float),
             (forall r, In r g -> exists q, f r = Some q) ->
             exists qs, qs <> [] /\ map f g = map Some qs
                        /\ forall q, In q qs -> exists r, In r g /\ f r = Some q).
  { intros f Hf. clear Hg. induction g as [|r g IH]; [congruence|].
    destruct (Hf r (or_introl eq_refl)) as (q & Eq).
    destruct g as [|r' g'].
    - exists [q]. simpl. rewrite Eq. repeat split; [discriminate|].
      intros q' [<-|[]]. exists r. split; [now left | exact Eq].
    - destruct IH as (qs & _ & Emap & Hqs); [discriminate| |].
      { intros r0 Hr0. apply Hf. now right. }
      exists (q :: qs). split; [discriminate|]. split.
      + change (map f (r :: r' :: g')) with (f r :: map f (r' :: g')).
        now rewrite Eq, Emap.
      + intros q' [<-|Hq']; [exists r; split; [now left | exact Eq]|].
        destruct (Hqs q' Hq') as (r0 & Hr0 & E0). exists r0. split; [now right|exact E0]. }
  destruct (Hcol p_to_a) as (qa & Hqa & Ea & Hqa').
  { intros r Hr. destruct (Hg r Hr) as (o & p & a & c & d & _ & _ & _ & _ & _ & E & _).
    eexists. exact E. }
  destruct (Hcol a_to_c) as (qb & Hqb & Eb & Hqb').
  { intros r Hr. destruct (Hg r Hr) as (o & p & a & c & d & _ & _ & _ & _ & _ & _ & E & _).
    eexists. exact E. }
  destruct (Hcol c_to_d) as (qc & Hqc & Ec & Hqc').
  { intros r Hr. destruct (Hg r Hr) as (o & p & a & c & d & _ & _ & _ & _ & _ & _ & _ & E).
    eexists. exact E. }
  rewrite Ea, Eb, Ec.
  destruct (mean_defined (map Some qa)) as (ma & Ema).
  { unfold has_value. destruct qa; [congruence | discriminate]. }
  destruct (mean_defined (map Some qb)) as (mb & Emb).
  { unfold has_value. destruct qb; [congruence | discriminate]. }
  destruct (mean_defined (map Some qc)) as (mc & Emc).
  { unfold has_value. destruct qc; [congruence | discriminate]. }
  exists ma, mb, mc. repeat split; try assumption.
  - destruct (mean_of_values qa 0 Hqa) as (r & Hr & Hle); [|congruence].
    intros q Hq. destruct (Hqa' q Hq) as (r & Hr & E).
    destruct (Hg r Hr) as (o & p & a & c & d & Ho & Ep & Eap & Ecp & Edp & E' & _).
    rewrite E' in E. apply Some_eq in E. subst q.
    apply stage_nonneg. now apply (H o Ho p a c d).
  - destruct (mean_of_values qb 0 Hqb) as (r & Hr & Hle); [|congruence].
    intros q Hq. destruct (Hqb' q Hq) as (r & Hr & E).
    destruct (Hg r Hr) as (o & p & a & c & d & Ho & Ep & Eap & Ecp & Edp & _ & E' & _).
    rewrite E' in E. apply Some_eq in E. subst q.
    apply stage_nonneg. now apply (H o Ho p a c d).
  - destruct (mean_of_values qc 0 Hqc) as (r & Hr & Hle); [|congruence].
    intros q Hq. destruct (Hqc' q Hq) as (r & Hr & E).
    destruct (Hg r Hr) as (o & p & a & c & d & Ho & Ep & Eap & Ecp & Edp & _ & _ & E').
    rewrite E' in E. apply Some_eq in E. subst q.
    apply stage_nonneg. now apply (H o Ho p a c d).
Qed.

Lemma monthly_means_defined_witness :
  exists m a b c qa,
    In (m, (a, b, c)) (df_perf (load_data_from_parquet (Some olist_sample)))
    /\ a = Some qa.
Proof.
  destruct (df_perf (load_data_from_parquet (Some olist_sample)))
    as [|[m [[a b] c]] l] eqn:E; [vm_compute in E; discriminate E|].
  assert (Hin : In (m, (a, b, c)) ((m, (a, b, c)) :: l)) by (left; reflexivity).
  rewrite <- E in Hin.
  destruct (monthly_means_defined _ m a b c Hin) as (qa & _ & _ & Ha & _).
  exists m, a, b, c, qa. split; [left; reflexivity | exact Ha].
Defined.

(** ** The ten best categories *)

Lemma firstn_In {A} n (l : list A) x : In x (firstn n l) -> In x l.
Proof.
  intros H. rewrite <- (firstn_skipn n l). apply in_or_app. now left.
Qed.

Lemma StronglySorted_firstn {A} (R : A -> A -> Prop) n l :
  StronglySorted R l -> StronglySorted R (firstn n l).
Proof.
  intros Hs. revert n. induction Hs as [|x l Hl IH Hx]; intros [|n]; simpl;
    try constructor; [apply IH|].
  apply Forall_forall. intros y Hy. rewrite Forall_forall in Hx.
  apply Hx. exact (firstn_In n l y Hy).
Qed.

Lemma StronglySorted_app_cross {A} (R : A -> A -> Prop) l1 l2 x y :
  StronglySorted R (l1 ++ l2) -> In x l1 -> In y l2 -> R x y.
Proof.
  induction l1 as [|a l1 IH]; simpl; [tauto|].
  intros Hs [->|Hx] Hy; inversion Hs as [|? ? Hl Hf]; subst.
  - rewrite Forall_forall in Hf. apply Hf, in_or_app. now right.
  - now apply IH.
Qed.

Lemma NoDup_firstn {A} n (l : list A) : NoDup l -> NoDup (firstn n l).
Proof.
  intros H. rewrite <- (firstn_skipn n l) in H. now apply NoDup_app_remove_r in H.
Qed.

Lemma groupby_category_sum_keys plot_df :
  NoDup (map fst (groupby_category_sum plot_df)).
Proof.
  unfold groupby_category_sum. rewrite map_map. simpl. rewrite map_id.
  eapply Permutation_NoDup; [apply sort_values_perm | apply NoDup_nodup].
Qed.

(** The category chart shows at most ten categories, each once, the one with
    the largest revenue first, and no category left out has a larger revenue
    than one that is shown. *)
Theorem top_cats_are_the_largest plot_df :
  (length (top_cats plot_df) <= 10)%nat
  /\ StronglySorted (fun a b => snd b <= snd a) (top_cats plot_df)
  /\ NoDup (map fst (top_cats plot_df))
  /\ incl (top_cats plot_df) (groupby_category_sum plot_df)
  /\ (forall shown other,
         In shown (top_cats plot_df) ->
         In other (groupby_category_sum plot_df) ->
         ~ In other (top_cats plot_df) ->
         snd other <= snd shown).
Proof.
  unfold top_cats, nlargest.
  set (all := groupby_category_sum plot_df).
  set (desc := fun a b : string * Q => Qle_bool (snd b) (snd a)).
  assert (Hsorted : StronglySorted (fun a b => snd b <= snd a) (sort_values desc all)).
  { assert (H : StronglySorted (fun a b => desc a b = true) (sort_values desc all)).
    { apply sort_values_sorted; unfold desc.
      - intros x y. rewrite !Qle_bool_iff.
        destruct (Qlt_le_dec (snd x) (snd y)) as [H|H]; [right|left]; auto.
        now apply Qlt_le_weak.
      - intros x y z. rewrite !Qle_bool_iff. intros H1 H2.
        now apply Qle_trans with (snd y). }
    clear -H. induction H as [|x l Hl IH Hx]; constructor; [exact IH|].
    eapply Forall_impl; [|exact Hx]. intros y. unfold desc. apply Qle_bool_iff. }
  pose proof (sort_values_perm desc all) as Hperm.
  repeat split.
  - apply firstn_le_length.
  - now apply StronglySorted_firstn.
  - rewrite <- firstn_map. apply NoDup_firstn.
    eapply Permutation_NoDup; [apply Permutation_map, Hperm|].
    apply groupby_category_sum_keys.
  - intros x Hx. apply firstn_In in Hx.
    eapply Permutation_in; [symmetry; exact Hperm | exact Hx].
  - intros shown other Hs Ho Hn.
    apply (Permutation_in _ Hperm) in Ho.
    rewrite <- (firstn_skipn 10 (sort_values desc all)) in Ho, Hsorted.
    apply in_app_or in Ho. destruct Ho as [Ho|Ho]; [contradiction|].
    exact (StronglySorted_app_cross _ _ _ _ _ Hsorted Hs Ho).
Qed.

(** ** The outlier detail *)

(** Every id the select box offers has a detail row: the lookup finds the
    first outlier with that id, which is a row of the page's frame beyond
    one of the two limits. *)
Theorem detail_of_selected_outlier plot_df th selected_id :
  In selected_id (outlier_options (outliers_df plot_df th)) ->
  exists d,
    detail (outliers_df plot_df th) selected_id = Some d
    /\ order_id d = selected_id
    /\ In d (rows plot_df)
    /\ is_outlier d th = true.
Proof.
  intros Hin. unfold outlier_options in Hin.
  apply (proj1 (unique_In _ String.eqb_eq _ _)) in Hin.
  apply in_map_iff in Hin. destruct Hin as (o & Hid & Ho).
  unfold detail.
  destruct (filter (fun o => String.eqb (order_id o) selected_id)
                   (outliers_df plot_df th)) as [|d l] eqn:E.
  - pose proof (proj2 (filter_none _ _) E o Ho) as Hn. simpl in Hn.
    rewrite Hid, String.eqb_refl in Hn. discriminate.
  - exists d. split; [reflexivity|].
    assert (Hd : In d (d :: l)) by now left.
    rewrite <- E in Hd. apply filter_In in Hd. destruct Hd as [Hd Hidd].
    apply String.eqb_eq in Hidd.
    rewrite outliers_df_rows in Hd. apply filter_In in Hd. tauto.
Qed.

Lemma detail_of_selected_outlier_witness :
  exists d,
    detail (outliers_df spec_sample (calculate_dynamic_thresholds spec_sample))
           "m"%string = Some d
    /\ is_outlier d (calculate_dynamic_thresholds spec_sample) = true.
Proof.
  destruct (detail_of_selected_outlier spec_sample
              (calculate_dynamic_thresholds spec_sample) "m"%string)
    as (d & Hd & _ & _ & Ho).
  - vm_compute. left. reflexivity.
  - exists d. split; assumption.
Defined.

(** ** The mean review score by segment *)

Lemma Segment_eqb_eq a b : Segment_eqb a b = true <-> a = b.
Proof. destruct a, b; cbv; split; congruence. Qed.

Lemma getitem_mask_maps {A B} (f : A -> B) (p : A -> bool) l :
  getitem_mask (map f l) (map p l) = map f (filter p l).
Proof.
  induction l as [|x l IH]; simpl; [reflexivity|].
  destruct (p x); simpl; now rewrite IH.
Qed.

Lemma avg_scores_keys plot_df th :
  Permutation (map fst (avg_scores plot_df th))
              (unique Segment_eqb (assign_segments plot_df th)).
Proof.
  unfold avg_scores. rewrite <- sort_values_perm, map_map. simpl. rewrite map_id.
  symmetry. apply sort_values_perm.
Qed.

(** The score chart has one bar for each segment that occurs among the rows
    and none for the others, in the order Normal, At-Risk, High Freight,
    Delayed, Worst Case; each bar is the mean review score of the rows of its
    segment. *)
Theorem avg_scores_by_severity plot_df th :
  StronglySorted (fun a b => (sort_idx a < sort_idx b)%nat)
                 (map fst (avg_scores plot_df th))
  /\ (forall s, In s (map fst (avg_scores plot_df th))
                <-> In s (assign_segments plot_df th))
  /\ (forall s r,
         In (s, r) (avg_scores plot_df th) ->
         r = mean (map review_score
                     (filter (fun o => Segment_eqb s (segment_by_priority o th))
                             (rows plot_df)))).
Proof.
  pose proof (avg_scores_keys plot_df th) as Hkeys.
  split; [|split].
  - apply (StronglySorted_strict (fun a b => (sort_idx a <= sort_idx b)%nat)).
    + intros x y Hle Hne.
      assert (sort_idx x <> sort_idx y) by (destruct x, y; simpl; congruence).
      lia.
    + apply StronglySorted_map.
      assert (H : StronglySorted
                    (fun a b : Segment * float =>
                       Nat.leb (sort_idx (fst a)) (sort_idx (fst b)) = true)
                    (avg_scores plot_df th)).
      { unfold avg_scores. apply sort_values_sorted.
        - intros x y. rewrite !Nat.leb_le. lia.
        - intros x y z. rewrite !Nat.leb_le. lia. }
      clear -H. induction H as [|x l Hl IH Hx]; constructor; [exact IH|].
      eapply Forall_impl; [|exact Hx]. intros y. apply Nat.leb_le.
    + eapply Permutation_NoDup; [symmetry; exact Hkeys|].
      apply unique_NoDup, Segment_eqb_eq.
  - intros s.
    rewrite <- (unique_In _ Segment_eqb_eq (assign_segments plot_df th) s).
    split; apply Permutation_in; [exact Hkeys | symmetry; exact Hkeys].
  - intros s r Hin. unfold avg_scores in Hin.
    apply (Permutation_in _ (Permutation_sym (sort_values_perm _ _))) in Hin.
    apply in_map_iff in Hin. destruct Hin as (k & [= <- <-] & _).
    rewrite assign_segments_priority. unfold column.
    rewrite map_map. now rewrite getitem_mask_maps.
Qed.

(** ** The default selection *)

Lemma default_options_firstn df : default_options df = firstn 5 (state_options df).
Proof. unfold default_options. now destruct (state_options df). Qed.

(** On a frame with rows, the widget's default selection holds at most five
    states, each once and each a state of the frame, and the page it gives
    is never empty. *)
Theorem default_selection_shows_orders df :
  rows df <> [] ->
  (length (default_options df) <= 5)%nat
  /\ NoDup (default_options df)
  /\ incl (default_options df) (state_options df)
  /\ rows (select_plot_df df (default_options df)) <> [].
Proof.
  intros Hne. rewrite default_options_firstn. repeat split.
  - apply firstn_le_length.
  - apply NoDup_firstn, unique_NoDup, option_string_eqb_eq.
  - intros s. apply firstn_In.
  - destruct (state_options df) as [|s l] eqn:E.
    + apply unique_nil in E. unfold column in E. apply map_eq_nil in E.
      contradiction.
    + apply (selection_nonempty df _ s); [now left|].
      rewrite E. now left.
Qed.

Lemma default_selection_shows_orders_witness :
  rows (select_plot_df (load_data_from_parquet (Some olist_sample))
                       (default_options (load_data_from_parquet (Some olist_sample))))
  <> [].
Proof.
  apply (default_selection_shows_orders (load_data_from_parquet (Some olist_sample))).
  discriminate.
Defined.

(** ** The rest of the page on the sample *)

Example olist_sample_page :
  let df := load_data_from_parquet (Some olist_sample) in
  state_options df = [Some "SP"; Some "RJ"]%string
  /\ top_cats df = [("toys"%string, 400)]
  /\ assign_segments df ten_eight = [At_Risk; High_Freight; High_Freight; Worst_Case]
  /\ map fst (avg_scores df ten_eight) = [At_Risk; High_Freight; Worst_Case]
  /\ outlier_options (outliers_df df ten_eight) = ["b"; "c"; "d"]%string
  /\ option_map order_id (detail (outliers_df df ten_eight) "d") = Some "d"%string
  /\ detail (outliers_df df ten_eight) "a" = None.
Proof. repeat split. Qed.
